(** * go-service-template: listener acquisition of [main.go]

    A shallow embedding of [main.go]: the address parser
    ([parseListenAddr]), configuration parsing ([parseConfig]), listener
    acquisition ([config.listeners]), the start-up part of [main] and the
    fixed HTTP handler.

    Go strings are byte strings and are modelled by [string]; Go's [int] is
    the 64-bit signed integer of the supported platforms and is modelled by
    [Z] with the wrap-around written out where the program computes with
    it.  The process environment is a [gmap string string], the set of
    open listeners a [gset nat].  The operating system is modelled by an
    explicit [World] that is threaded through every call, and by the
    record [OS] that fixes how the outside world answers. *)

From Stdlib Require Import ZArith Lia Ascii String DecimalString DecimalPos DecimalZ.
From stdpp Require Import gmap strings list sorting.

(** ** Errors

    One constructor for each [fmt.Errorf] of [main.go]; the arguments are
    the values formatted into the message.  Errors of the Go libraries
    are carried as their message text. *)

Inductive error : Type :=
| ErrInvalidAddressFormat (cause : string)
    (* main.go:27  "invalid address format: %w" *)
| ErrEmptyUnixPath
    (* main.go:37  "unix socket path cannot be empty" *)
| ErrUnsupportedScheme (scheme : string)
    (* main.go:43  "unsupported scheme %q (supported: unix)" *)
| ErrInvalidListenPid (pid : string)
    (* main.go:63  "invalid LISTEN_PID %q: %w" *)
| ErrUnsetListenPid (cause : string)
    (* main.go:66  "failed to unset LISTEN_PID: %w" *)
| ErrInvalidListenFds (fds : string)
    (* main.go:73  "invalid LISTEN_FDS %q: %w" *)
| ErrUnsetListenFds (cause : string)
    (* main.go:76  "failed to unset LISTEN_FDS: %w" *)
| ErrUnsetListenFdnames (cause : string)
    (* main.go:82  "failed to unset LISTEN_FDNAMES: %w" *)
| ErrCloseFile (name : string) (cause : string)
    (* main.go:115 "failed to close file %s: %w" *)
| ErrInvalidListenAddress (addr : string) (cause : error)
    (* main.go:125 "invalid listen address %q: %w" *)
| ErrListen (addr network : string) (cause : string)
    (* main.go:132 "failed to listen on %s (%s): %w" *).

Inductive result (A : Type) : Type :=
| Ok (a : A)
| Err (e : error).
Arguments Ok {A} a.
Arguments Err {A} e.

(** The errors that the specification's taxonomy calls [InvalidAddress]:
    a malformed address string, or an empty Unix path. *)
Definition is_InvalidAddress (e : error) : bool :=
  match e with
  | ErrInvalidAddressFormat _ | ErrEmptyUnixPath => true
  | _ => false
  end.

(** ** Go's [strings] package, as far as the program reaches it *)

(** [strings.Cut(s, sep)] for a one-byte separator: the text before the
    first [sep], the text after it, and whether [sep] was found. *)
Fixpoint strings_Cut (s : string) (sep : ascii) : string * string * bool :=
  match s with
  | EmptyString => (EmptyString, EmptyString, false)
  | String c cs =>
      if Ascii.eqb c sep then (EmptyString, cs, true)
      else let '(before, after, found) := strings_Cut cs sep in
           (String c before, after, found)
  end.

(** [strings.Contains(s, sep)] for a one-byte [sep]. *)
Fixpoint strings_Contains (s : string) (sep : ascii) : bool :=
  match s with
  | EmptyString => false
  | String c cs => Ascii.eqb c sep || strings_Contains cs sep
  end.

(** [strings.HasPrefix(s, prefix)]. *)
Fixpoint strings_HasPrefix (s prefix : string) : bool :=
  match prefix, s with
  | EmptyString, _ => true
  | String _ _, EmptyString => false
  | String p ps, String c cs => Ascii.eqb c p && strings_HasPrefix cs ps
  end.

(** [strings.Split(s, sep)] for a one-byte separator: the pieces between
    the separators, one more than there are separators. *)
Fixpoint strings_Split (s : string) (sep : ascii) : list string :=
  match s with
  | EmptyString => [EmptyString]
  | String c cs =>
      if Ascii.eqb c sep then EmptyString :: strings_Split cs sep
      else match strings_Split cs sep with
           | piece :: pieces => String c piece :: pieces
           | [] => [String c EmptyString]
           end
  end.

Definition byte_in (lo hi c : ascii) : bool :=
  (nat_of_ascii lo <=? nat_of_ascii c)%nat && (nat_of_ascii c <=? nat_of_ascii hi)%nat.

Definition is_upper (c : ascii) : bool := byte_in "A" "Z" c.
Definition is_lower (c : ascii) : bool := byte_in "a" "z" c.
Definition is_digit (c : ascii) : bool := byte_in "0" "9" c.

(** [strings.ToLower] on the bytes a URL scheme is made of (ASCII). *)
Definition lower_byte (c : ascii) : ascii :=
  if is_upper c then ascii_of_nat (nat_of_ascii c + 32) else c.

Fixpoint strings_ToLower (s : string) : string :=
  match s with
  | EmptyString => EmptyString
  | String c cs => String (lower_byte c) (strings_ToLower cs)
  end.

(** ** Go's [net/url], as far as [url.Parse] decides the address parser

    [url.Parse] is library code.  Its control flow is followed step by
    step; of the record [url.URL] the fields are kept that the flow
    sets on the way ([User], [ForceQuery], [OmitHost], [RawPath] and
    [RawFragment] play no part in the program).  The one routine left
    open is [parseAuthority], the validation of the [user@host:port]
    part, which is a parameter of the model. *)

Record URL : Type := mkURL {
  Scheme : string;
  Opaque : string;
  Host : string;
  Path : string;
  RawQuery : string;
  Fragment : string
}.

(** [stringContainsCTLByte]: a byte below 0x20, or 0x7f. *)
Fixpoint stringContainsCTLByte (s : string) : bool :=
  match s with
  | EmptyString => false
  | String c cs =>
      (nat_of_ascii c <? 32)%nat || (nat_of_ascii c =? 127)%nat
      || stringContainsCTLByte cs
  end.

(** [getScheme]: the loop over the bytes of [rawURL]; [i0] tells whether
    the byte at hand is the first one, [seen] is [rawURL[:i]]. *)
Fixpoint getScheme_from (i0 : bool) (seen rest rawURL : string)
  : (string * string) + string :=
  match rest with
  | EmptyString => inl (EmptyString, rawURL)
  | String c cs =>
      if is_lower c || is_upper c then
        getScheme_from false (seen +:+ String c EmptyString) cs rawURL
      else if is_digit c || Ascii.eqb c "+" || Ascii.eqb c "-" || Ascii.eqb c "." then
        if i0 then inl (EmptyString, rawURL)
        else getScheme_from false (seen +:+ String c EmptyString) cs rawURL
      else if Ascii.eqb c ":" then
        if i0 then inr "missing protocol scheme"
        else inl (seen, cs)
      else inl (EmptyString, rawURL)
  end.

Definition getScheme (rawURL : string) : (string * string) + string :=
  getScheme_from true EmptyString rawURL rawURL.

Definition ishex (c : ascii) : bool :=
  is_digit c || byte_in "a" "f" c || byte_in "A" "F" c.

Definition unhex (c : ascii) : nat :=
  if is_digit c then nat_of_ascii c - 48
  else if byte_in "a" "f" c then nat_of_ascii c - 97 + 10
  else if byte_in "A" "F" c then nat_of_ascii c - 65 + 10
  else 0.

(** [unescape(s, mode)] in the modes [encodePath] and [encodeFragment]:
    every [%] must be followed by two hexadecimal digits and stands for
    that byte; every other byte stands for itself.  The error is Go's
    [EscapeError], the offending text of at most three bytes. *)
Fixpoint unescape (s : string) : string + string :=
  match s with
  | EmptyString => inl EmptyString
  | String c cs =>
      if Ascii.eqb c "%" then
        match cs with
        | String h1 (String h2 tl) =>
            if ishex h1 && ishex h2 then
              match unescape tl with
              | inl t => inl (String (ascii_of_nat (unhex h1 * 16 + unhex h2)) t)
              | inr e => inr e
              end
            else inr ("invalid URL escape " +:+ String c (String h1 (String h2 EmptyString)))
        | _ => inr ("invalid URL escape " +:+ s)
        end
      else
        match unescape cs with
        | inl t => inl (String c t)
        | inr e => inr e
        end
  end.

Section NetURL.

(** [parseAuthority(authority)]: the host, or the library's error. *)
Variable parseAuthority : string -> string + string.

(** [parse(rawURL, viaRequest)] with [viaRequest = false]. *)
Definition url_parse (rawURL : string) : URL + string :=
  if stringContainsCTLByte rawURL then
    inr "net/url: invalid control character in URL"
  else if String.eqb rawURL "*" then
    inl (mkURL "" "" "" "*" "" "")
  else
    match getScheme rawURL with
    | inr err => inr err
    | inl (scheme, rest) =>
        let scheme := strings_ToLower scheme in
        (* both branches on the query leave [rest] cut at the first "?" *)
        let '(rest, rawQuery, _) := strings_Cut rest "?" in
        if negb (strings_HasPrefix rest "/") && negb (String.eqb scheme "") then
          (* a rootless path of a URL with a scheme is opaque *)
          inl (mkURL scheme rest "" "" rawQuery "")
        else if negb (strings_HasPrefix rest "/")
                && strings_Contains (fst (fst (strings_Cut rest "/"))) ":" then
          inr "first path segment in URL cannot contain colon"
        else if (negb (String.eqb scheme "") || negb (strings_HasPrefix rest "///"))
                && strings_HasPrefix rest "//" then
          let '(authority, after, found) :=
            strings_Cut (String.substring 2 (String.length rest - 2) rest) "/" in
          let rest := if found then String "/" after else EmptyString in
          match parseAuthority authority with
          | inr err => inr err
          | inl host =>
              match unescape rest with
              | inr err => inr err
              | inl path => inl (mkURL scheme "" host path rawQuery "")
              end
          end
        else
          match unescape rest with
          | inr err => inr err
          | inl path => inl (mkURL scheme "" "" path rawQuery "")
          end
    end.

(** [url.Parse(rawURL)]: the fragment is cut off first. *)
Definition url_Parse (rawURL : string) : URL + string :=
  let '(u, frag, _) := strings_Cut rawURL "#" in
  match url_parse u with
  | inr err => inr err
  | inl url =>
      if String.eqb frag "" then inl url
      else match unescape frag with
           | inr err => inr err
           | inl f =>
               inl (mkURL (Scheme url) (Opaque url) (Host url) (Path url) (RawQuery url) f)
           end
  end.

(** ** main.go:24 [parseListenAddr] *)
Definition parseListenAddr (addr : string) : result (string * string) :=
  match url_Parse addr with
  | inr err => Err (ErrInvalidAddressFormat err)
  | inl u =>
      if String.eqb (Scheme u) "unix" then
        let path := Path u in
        let path := if negb (String.eqb (Host u) "") then Host u +:+ path else path in
        if String.eqb path "" then Err ErrEmptyUnixPath
        else Ok ("unix", path)
      else if String.eqb (Scheme u) "" then Ok ("tcp", addr)
      else Err (ErrUnsupportedScheme (Scheme u))
  end.

End NetURL.

(** A plain host name is returned by [parseAuthority] as it stands; the
    examples below run the parser with it. *)
Definition plain_authority (authority : string) : string + string := inl authority.

(** ** Go's [int] and [strconv] *)

Definition int_min : Z := (- 2 ^ 63)%Z.
Definition int_max : Z := (2 ^ 63 - 1)%Z.

Definition is_int (z : Z) : Prop := (int_min <= z <= int_max)%Z.

(** The value of a Go [int] expression whose exact value is [z]. *)
Definition wrap_int (z : Z) : Z := ((z + 2 ^ 63) mod 2 ^ 64 - 2 ^ 63)%Z.

(** [strconv.Itoa]: the decimal text, with a leading [-] below zero. *)
Definition strconv_Itoa (z : Z) : string := NilZero.string_of_int (Z.to_int z).

Fixpoint digits_value (acc : Z) (s : string) : option Z :=
  match s with
  | EmptyString => Some acc
  | String c cs =>
      if is_digit c
      then digits_value (10 * acc + Z.of_nat (nat_of_ascii c - 48))%Z cs
      else None
  end.

(** [strconv.Atoi]: an optional sign and at least one decimal digit, of a
    value in the range of [int]; [None] is Go's [*NumError] (a syntax
    error or a value out of range). *)
Definition strconv_Atoi (s : string) : option Z :=
  let '(neg, digits) :=
    match s with
    | String c r =>
        if Ascii.eqb c "-" then (true, r)
        else if Ascii.eqb c "+" then (false, r)
        else (false, s)
    | EmptyString => (false, s)
    end in
  match digits with
  | EmptyString => None
  | _ =>
      match digits_value 0 digits with
      | None => None
      | Some n =>
          let v := if neg : bool then (- n)%Z else n in
          if (int_min <=? v)%Z && (v <=? int_max)%Z then Some v else None
      end
  end.

(** ** The process environment

    The variables, and the history of the calls made on them. *)

Inductive env_op : Type :=
| EnvGet (key : string)
| EnvUnset (key : string).

Record Env : Type := mkEnv {
  vars : gmap string string;
  ops : list env_op
}.

(** [os.Getenv]: the value, or the empty string when the variable is not
    set. *)
Definition os_Getenv (key : string) (e : Env) : string * Env :=
  (default EmptyString (vars e !! key), mkEnv (vars e) (ops e ++ [EnvGet key])).

Section Config.

(** How [os.Unsetenv] answers: [None] when the variable is removed, the
    error's text otherwise. *)
Variable unsetenv_error : string -> option string.

Definition os_Unsetenv (key : string) (e : Env) : option string * Env :=
  match unsetenv_error key with
  | Some err => (Some err, mkEnv (vars e) (ops e ++ [EnvUnset key]))
  | None => (None, mkEnv (delete key (vars e)) (ops e ++ [EnvUnset key]))
  end.

(** main.go:47 [config] *)
Record config : Type := mkConfig {
  addresses : list string;
  listenPid : Z;
  listenFds : Z;
  listenFdnames : list string
}.

(** main.go:54 [parseConfig]; [flags] are the values of the repeated
    [-listen] flag, in command-line order, as [flag.Parse] has appended
    them to [cfg.addresses] (main.go:22). *)
Definition parseConfig (flags : list string) (e : Env) : result config * Env :=
  let cfg := mkConfig flags 0 0 [] in
  let '(pid, e) := os_Getenv "LISTEN_PID" e in
  let after_pid : result config * Env :=
    if negb (String.eqb pid "") then
      match strconv_Atoi pid with
      | None => (Err (ErrInvalidListenPid pid), e)
      | Some n =>
          let cfg := mkConfig (addresses cfg) n (listenFds cfg) (listenFdnames cfg) in
          match os_Unsetenv "LISTEN_PID" e with
          | (Some err, e) => (Err (ErrUnsetListenPid err), e)
          | (None, e) => (Ok cfg, e)
          end
      end
    else (Ok cfg, e) in
  match after_pid with
  | (Err err, e) => (Err err, e)
  | (Ok cfg, e) =>
      let '(fds, e) := os_Getenv "LISTEN_FDS" e in
      let after_fds : result config * Env :=
        if negb (String.eqb fds "") then
          match strconv_Atoi fds with
          | None => (Err (ErrInvalidListenFds fds), e)
          | Some n =>
              let cfg := mkConfig (addresses cfg) (listenPid cfg) n (listenFdnames cfg) in
              match os_Unsetenv "LISTEN_FDS" e with
              | (Some err, e) => (Err (ErrUnsetListenFds err), e)
              | (None, e) => (Ok cfg, e)
              end
          end
        else (Ok cfg, e) in
      match after_fds with
      | (Err err, e) => (Err err, e)
      | (Ok cfg, e) =>
          let '(fdnames, e) := os_Getenv "LISTEN_FDNAMES" e in
          if negb (String.eqb fdnames "") then
            let cfg := mkConfig (addresses cfg) (listenPid cfg) (listenFds cfg)
                                (strings_Split fdnames ":") in
            match os_Unsetenv "LISTEN_FDNAMES" e with
            | (Some err, e) => (Err (ErrUnsetListenFdnames err), e)
            | (None, e) => (Ok cfg, e)
            end
          else (Ok cfg, e)
      end
  end.

End Config.

(** On the supported platforms [os.Unsetenv] cannot fail. *)
Definition unsetenv_ok (key : string) : option string := None.

Definition env_of (l : list (string * string)) : Env := mkEnv (list_to_map l) [].

(** ** Listeners, files and the world they live in *)

(** Where a listener comes from: wrapped from the inherited descriptor
    [fd] through a file called [name], or bound by [net.Listen]. *)
Inductive origin : Type :=
| Imported (fd : Z) (name : string)
| Bound (network address : string).

(** A [net.Listener]; [l_id] is the identity of the underlying socket
    object. *)
Record Listener : Type := mkListener {
  l_id : nat;
  l_origin : origin
}.

(** An [*os.File] that is not [nil]. *)
Record File : Type := mkFile {
  f_fd : Z;
  f_name : string
}.

Inductive sys_event : Type :=
| SysCloseOnExec (fd : Z)
| SysFileListener (fd : Z) (l : option nat)
| SysFileClose (fd : Z)
| SysListen (network address : string) (l : option nat)
| SysListenerClose (l : nat).

(** The state of the process as far as listeners go: the identity the
    next listener gets, the listeners that are open (created, and
    [Close] not yet called on them), and the history of the calls.  A
    listener is identified by the order of its creation; the descriptor
    numbers that the listeners' own sockets get are not followed. *)
Record World : Type := mkWorld {
  next_listener : nat;
  open_listeners : gset nat;
  syscalls : list sys_event
}.

Definition init_world : World := mkWorld 0 ∅ [].

(** How the outside world answers. *)
Record OS : Type := mkOS {
  (** [os.Getpid()] *)
  os_Getpid : Z;
  (** whether [net.FileListener] can wrap the descriptor *)
  FileListener_ok : World -> Z -> bool;
  (** the error of [f.Close()], if any *)
  FileClose_error : World -> Z -> option string;
  (** the error of [net.Listen(network, address)], if any *)
  Listen_error : World -> string -> string -> option string
}.

Definition log_event (ev : sys_event) (w : World) : World :=
  mkWorld (next_listener w) (open_listeners w) (syscalls w ++ [ev]).

(** [syscall.CloseOnExec(fd)] *)
Definition syscall_CloseOnExec (fd : Z) (w : World) : World :=
  log_event (SysCloseOnExec fd) w.

(** [os.NewFile(uintptr(fd), name)]: [nil] for a descriptor whose number
    is negative as an [int]. *)
Definition os_NewFile (fd : Z) (name : string) : option File :=
  if (fd <? 0)%Z then None else Some (mkFile fd name).

(** [l.Close()]: the listener is no longer open; closing a listener that
    is not open is an error. *)
Definition Listener_Close (l : Listener) (w : World) : option string * World :=
  (if decide (l_id l ∈ open_listeners w) then None
   else Some "use of closed network connection",
   mkWorld (next_listener w) (open_listeners w ∖ {[l_id l]})
           (syscalls w ++ [SysListenerClose (l_id l)])).

Definition listenFdsStart : Z := 3.

Section Listeners.

Variable os : OS.
Variable parseAuthority : string -> string + string.

(** [net.FileListener(f)]: a new listener on a copy of the descriptor,
    or an error; a [nil] file gives no listener. *)
Definition net_FileListener (f : option File) (w : World) : option Listener * World :=
  match f with
  | None => (None, w)
  | Some f =>
      if FileListener_ok os w (f_fd f) then
        let l := mkListener (next_listener w) (Imported (f_fd f) (f_name f)) in
        (Some l,
         mkWorld (S (next_listener w)) ({[l_id l]} ∪ open_listeners w)
                 (syscalls w ++ [SysFileListener (f_fd f) (Some (l_id l))]))
      else (None, log_event (SysFileListener (f_fd f) None) w)
  end.

(** [f.Close()]: the call on the file of the descriptor [fd], and its
    result. *)
Definition File_Close (f : option File) (w : World) : option string * World :=
  match f with
  | None => (Some "invalid argument", w)
  | Some f => (FileClose_error os w (f_fd f), log_event (SysFileClose (f_fd f)) w)
  end.

(** [net.Listen(network, address)] *)
Definition net_Listen (network address : string) (w : World) : (Listener + string) * World :=
  match Listen_error os w network address with
  | Some err => (inr err, log_event (SysListen network address None) w)
  | None =>
      let l := mkListener (next_listener w) (Bound network address) in
      (inl l,
       mkWorld (S (next_listener w)) ({[l_id l]} ∪ open_listeners w)
               (syscalls w ++ [SysListen network address (Some (l_id l))]))
  end.

(** The descriptor of slot [i] (main.go:105). *)
Definition slot_fd (i : Z) : Z := wrap_int (listenFdsStart + i).

(** The name of slot [i] (main.go:107-110). *)
Definition slot_name (c : config) (i : Z) : string :=
  let name := "LISTEN_FD_" +:+ strconv_Itoa (slot_fd i) in
  if (i <? Z.of_nat (length (listenFdnames c)))%Z
     && (0 <? String.length (nth (Z.to_nat i) (listenFdnames c) EmptyString))%nat
  then nth (Z.to_nat i) (listenFdnames c) EmptyString
  else name.

(** The loop of main.go:104-119 with [n] iterations to go, at index
    [i]; the result is the variable [listeners], the variable [err] and
    the world.  An error leaves the loop at once. *)
Fixpoint import_loop (c : config) (n : nat) (i : Z) (ls : list Listener) (w : World)
  : list Listener * option error * World :=
  match n with
  | O => (ls, None, w)
  | S n' =>
      let fd := slot_fd i in
      let w := syscall_CloseOnExec fd w in
      let name := slot_name c i in
      let f := os_NewFile fd name in
      match net_FileListener f w with
      | (Some l, w) =>
          let ls := ls ++ [l] in
          match File_Close f w with
          | (Some ferr, w) => (ls, Some (ErrCloseFile name ferr), w)
          | (None, w) => import_loop c n' (i + 1)%Z ls w
          end
      | (None, w) => import_loop c n' (i + 1)%Z ls w
      end
  end.

(** main.go:103-120: the import of the inherited descriptors. *)
Definition import_phase (c : config) (ls : list Listener) (w : World)
  : list Listener * option error * World :=
  if negb (listenPid c =? 0)%Z && (listenPid c =? os_Getpid os)%Z
  then import_loop c (Z.to_nat (listenFds c)) 0 ls w
  else (ls, None, w).

(** main.go:122-136: the loop over the configured addresses. *)
Fixpoint bind_phase (addrs : list string) (ls : list Listener) (w : World)
  : list Listener * option error * World :=
  match addrs with
  | [] => (ls, None, w)
  | addr :: addrs' =>
      match parseListenAddr parseAuthority addr with
      | Err parseErr => (ls, Some (ErrInvalidListenAddress addr parseErr), w)
      | Ok (network, address) =>
          match net_Listen network address w with
          | (inr err, w) => (ls, Some (ErrListen addr network err), w)
          | (inl l, w) => bind_phase addrs' (ls ++ [l]) w
          end
      end
  end.

(** main.go:97-99: every listener of [listeners] is closed, in order;
    the results of [Close] are dropped. *)
Definition close_all (ls : list Listener) (w : World) : World :=
  foldl (fun w l => snd (Listener_Close l w)) w ls.

(** main.go:95-101: the deferred function. *)
Definition deferred (ls : list Listener) (err : option error) (w : World) : World :=
  match err with
  | Some _ => close_all ls w
  | None => w
  end.

(** The body of [listeners]: the two phases in turn. *)
Definition listeners_body (c : config) (w : World)
  : list Listener * option error * World :=
  match import_phase c [] w with
  | (ls, Some err, w) => (ls, Some err, w)
  | (ls, None, w) => bind_phase (addresses c) ls w
  end.

(** main.go:91 [config.listeners]: what is returned, and the world
    after the deferred function has run. *)
Definition listeners (c : config) (w : World) : result (list Listener) * World :=
  let '(ls, err, w) := listeners_body c w in
  (match err with
   | Some e => Err e
   | None => Ok ls
   end,
   deferred ls err w).

End Listeners.

(** A world in which every descriptor is a listening socket and nothing
    fails, for the process [pid]. *)
Definition friendly_os (pid : Z) : OS :=
  mkOS pid (fun _ _ => true) (fun _ _ => None) (fun _ _ _ => None).

(** A world in which binding the address [bad] fails. *)
Definition busy_os (pid : Z) (bad : string) : OS :=
  mkOS pid (fun _ _ => true) (fun _ _ => None)
       (fun _ _ address => if String.eqb address bad then Some "address already in use" else None).

(** A world in which the file of the descriptor [bad] cannot be closed. *)
Definition stuck_os (pid : Z) (bad : Z) : OS :=
  mkOS pid (fun _ _ => true)
       (fun _ fd => if (fd =? bad)%Z then Some "input/output error" else None)
       (fun _ _ _ => None).

(** ** Logging, the handler and the start of [main] *)

Inductive log_level : Type := LevelInfo | LevelWarn | LevelError.

Inductive log_value : Type :=
| LogString (s : string)
| LogError (e : error)
| LogCause (cause : string).

(** A record of [log/slog]: level, message and the key-value pairs. *)
Record log_record : Type := mkLog {
  log_level_of : log_level;
  log_msg : string;
  log_attrs : list (string * log_value)
}.

(** The request as far as the handler looks at it. *)
Record Request : Type := mkRequest {
  Method : string;
  URL_Path : string;
  RemoteAddr : string
}.

(** An [http.ResponseWriter], the server's response to one request: the
    method of that request, the status line once the header has been
    written, the body sent so far, and whether the connection refuses
    writes (with the error it gives). *)
Record ResponseWriter : Type := mkResponse {
  rw_method : string;
  rw_status : option Z;
  rw_body : string;
  rw_broken : option string
}.

Definition StatusOK : Z := 200.

(** The response writer that the server hands to the handler for the
    request [r]. *)
Definition new_response (r : Request) (broken : option string) : ResponseWriter :=
  mkResponse (Method r) None EmptyString broken.

(** [w.Write(data)] of [net/http]: a first write sends the header with
    status 200 unless [WriteHeader] has been called.  In the response to
    a [HEAD] request the data is then taken and dropped, without error;
    otherwise the data goes out, or the connection's error comes back. *)
Definition rw_Write (data : string) (w : ResponseWriter) : option string * ResponseWriter :=
  let status := match rw_status w with
                | None => Some StatusOK
                | Some s => Some s
                end in
  if String.eqb (rw_method w) "HEAD" then
    (None, mkResponse (rw_method w) status (rw_body w) (rw_broken w))
  else
    match rw_broken w with
    | Some err => (Some err, mkResponse (rw_method w) status (rw_body w) (rw_broken w))
    | None => (None, mkResponse (rw_method w) status (rw_body w +:+ data) (rw_broken w))
    end.

(** main.go:151-156 [handler] *)
Definition handler (w : ResponseWriter) (r : Request) (log : list log_record)
  : ResponseWriter * list log_record :=
  let log := log ++ [mkLog LevelInfo "request"
                       [("method", LogString (Method r));
                        ("path", LogString (URL_Path r));
                        ("remote", LogString (RemoteAddr r))]] in
  match rw_Write "Hello, World!" w with
  | (Some err, w) => (w, log ++ [mkLog LevelWarn "write failed" [("error", LogCause err)]])
  | (None, w) => (w, log)
  end.

(** How the sequential start of [main] ends: the process exits with a
    code, or it goes on to start the shutdown watcher and one serving
    task for each of the listeners (main.go:169-191). *)
Inductive startup : Type :=
| Exit (code : Z)
| Serve (tasks : list Listener).

(** The serving tasks that have been started. *)
Definition serving_tasks (s : startup) : list Listener :=
  match s with
  | Exit _ => []
  | Serve tasks => tasks
  end.

Section Main.

Variable os : OS.
Variable parseAuthority : string -> string + string.
Variable unsetenv_error : string -> option string.

(** main.go:141-167, once [flag.Parse] has returned with the values
    [flags], and the hand-over to the serving tasks. *)
Definition main (flags : list string) (e : Env) (w : World)
  : startup * list log_record * Env * World :=
  match parseConfig unsetenv_error flags e with
  | (Err err, e) =>
      (Exit 1, [mkLog LevelError "config error" [("error", LogError err)]], e, w)
  | (Ok cfg, e) =>
      match listeners os parseAuthority cfg w with
      | (Err err, w) =>
          (Exit 1, [mkLog LevelError "failed to get listeners" [("error", LogError err)]], e, w)
      | (Ok ls, w) =>
          if (length ls =? 0)%nat then
            (Exit 1, [mkLog LevelError "no listeners configured" []], e, w)
          else (Serve ls, [], e, w)
      end
  end.

End Main.

(** * Notions the statements are written with

    ** Listeners created and closed by a run *)

(** The listener an event creates. *)
Definition created_id (ev : sys_event) : option nat :=
  match ev with
  | SysFileListener _ (Some l) | SysListen _ _ (Some l) => Some l
  | _ => None
  end.

Definition created_ids (evs : list sys_event) : list nat := omap created_id evs.

Definition is_close (ev : sys_event) : bool :=
  match ev with
  | SysListenerClose _ => true
  | _ => false
  end.

(** From the variable [listeners] holding [ls] in the world [w], the
    events [evs] have led to [ls'] in [w']: the listeners created by
    [evs] are new, are appended to the variable in the order of their
    creation, are open, and nothing has been closed. *)
Record acquired (ls : list Listener) (w : World) (ls' : list Listener) (w' : World)
    (evs : list sys_event) : Prop := mkAcquired {
  acq_syscalls : syscalls w' = syscalls w ++ evs;
  acq_ids : map l_id ls' = map l_id ls ++ created_ids evs;
  acq_fresh : created_ids evs = seq (next_listener w) (next_listener w' - next_listener w);
  acq_next : next_listener w <= next_listener w';
  acq_open : open_listeners w' = list_to_set (created_ids evs) ∪ open_listeners w;
  acq_no_close : Forall (fun ev => is_close ev = false) evs
}.

(** ** Names, descriptors and order *)

(** The name of a slot in the words of the specification: the entry of
    the names sequence for the slot when there is one and it is not
    empty, and otherwise the synthesized name, which encodes the
    descriptor number. *)
Definition spec_name (names : list string) (i fd : Z) : string :=
  match names !! Z.to_nat i with
  | Some name =>
      if decide (name = EmptyString) then "LISTEN_FD_" +:+ strconv_Itoa fd else name
  | None => "LISTEN_FD_" +:+ strconv_Itoa fd
  end.

(** The inherited descriptors of the listeners of a list, in its order. *)
Definition descriptor (l : Listener) : option Z :=
  match l_origin l with
  | Imported fd _ => Some fd
  | Bound _ _ => None
  end.

Definition descriptors (ls : list Listener) : list Z := omap descriptor ls.

(** [l] is the listener bound for the configured address [addr]. *)
Definition bound_from (parseAuthority : string -> string + string)
    (l : Listener) (addr : string) : Prop :=
  exists network address,
    parseListenAddr parseAuthority addr = Ok (network, address)
    /\ l_origin l = Bound network address.

(** The text of an address before its first [#], [?] and [/]. *)
Definition first_segment (addr : string) : string :=
  fst (fst (strings_Cut (fst (fst (strings_Cut (fst (fst (strings_Cut addr "#"))) "?"))) "/")).

(** ** The activation variables in the environment *)

Definition activation_vars : list string := ["LISTEN_PID"; "LISTEN_FDS"; "LISTEN_FDNAMES"].

Global Instance env_op_eq_dec : EqDecision env_op.
Proof. solve_decision. Defined.

(** How often [key] is read in a history. *)
Definition reads (key : string) (tr : list env_op) : nat :=
  length (filter (fun op => op = EnvGet key) tr).

(** The statement of the specification for a run from the environment
    [e] with an empty history: each activation variable has been read
    once and is no longer in the environment. *)
Definition read_once_and_unset (e : Env) : Prop :=
  forall key, key ∈ activation_vars ->
    reads key (ops (snd (parseConfig unsetenv_ok [] e))) = 1
    /\ vars (snd (parseConfig unsetenv_ok [] e)) !! key = None.

(** What [parseConfig] does with one variable: nothing, a read, or a
    read followed at once by the removal. *)
Definition seg (key : string) (s : list env_op) : Prop :=
  s = [] \/ s = [EnvGet key] \/ s = [EnvGet key; EnvUnset key].

Definition is_Ok {A : Type} (r : result A) : Prop :=
  match r with
  | Ok _ => True
  | Err _ => False
  end.

(** The history a run has added to [ops e], read off the final history. *)
Ltac added_ops t :=
  lazymatch t with
  | ?a ++ [?x] => let r := added_ops a in constr:(r ++ [x])
  | _ => constr:(@nil env_op)
  end.

(** The segment of [key] at the head of a history, and what follows. *)
Ltac head_seg key tr :=
  lazymatch tr with
  | EnvGet key :: EnvUnset key :: ?rest => constr:(([EnvGet key; EnvUnset key], rest))
  | EnvGet key :: ?rest => constr:(([EnvGet key], rest))
  | _ => constr:((@nil env_op, tr))
  end.

Ltac pick_segs :=
  lazymatch goal with
  | He : {| vars := _; ops := ?t |} = _ |- _ =>
      let tr := added_ops t in
      let tr := eval cbn [app] in tr in
      lazymatch head_seg "LISTEN_PID" tr with
      | (?s1, ?tr1) =>
          lazymatch head_seg "LISTEN_FDS" tr1 with
          | (?s2, ?tr2) =>
              lazymatch head_seg "LISTEN_FDNAMES" tr2 with
              | (?s3, _) => subst; exists s1, s2, s3
              end
          end
      end
  end.

(** ** More notions: bytes of a string, flag values, joined names *)

(** Every byte of [s] passes the test [p]. *)
Fixpoint all_bytes (p : ascii -> bool) (s : string) : bool :=
  match s with
  | EmptyString => true
  | String c cs => p c && all_bytes p cs
  end.

Definition is_letter (c : ascii) : bool := is_lower c || is_upper c.

(** A byte that [url.Parse] takes as it stands in a path: no control
    byte, and none of [#], [?] and [%]. *)
Definition is_plain (c : ascii) : bool :=
  negb ((nat_of_ascii c <? 32)%nat || (nat_of_ascii c =? 127)%nat)
  && negb (Ascii.eqb c "#") && negb (Ascii.eqb c "?") && negb (Ascii.eqb c "%").

(** main.go:21 [addrs.String] *)
Definition addrs_String (a : list string) : string := EmptyString.

(** main.go:22 [addrs.Set]: the value is appended; the error is [nil]. *)
Definition addrs_Set (a : list string) (v : string) : list string * option error :=
  (a ++ [v], None).

(** What [flag.Parse] leaves in [cfg.addresses] (main.go:56-57): it calls
    [Set] on the flag's value once for every [-listen] of the command
    line, in order, starting from the empty slice. *)
Definition flag_listen (values : list string) : list string :=
  foldl (fun a v => fst (addrs_Set a v)) [] values.

(** [strings.Join(elems, sep)] for a one-byte separator. *)
Fixpoint strings_Join (elems : list string) (sep : ascii) : string :=
  match elems with
  | [] => EmptyString
  | [x] => x
  | x :: rest => x +:+ String sep (strings_Join rest sep)
  end.

(** The cases of a run of [parseConfig] in the hypothesis [Hrun]: for
    each variable, empty or not, an integer or not, removed or not. *)
Ltac parseConfig_cases Hrun unsetenv_error :=
  unfold parseConfig, os_Getenv, os_Unsetenv in Hrun; cbn [vars ops] in Hrun;
  repeat match type of Hrun with
    | context [delete _ _ !! _] => rewrite lookup_delete_ne in Hrun by discriminate
    | context [String.eqb ?s EmptyString] =>
        let H := fresh "Hempty" in
        destruct (String.eqb s EmptyString) eqn:H;
        [apply String.eqb_eq in H|apply String.eqb_neq in H]
    | context [strconv_Atoi ?s] =>
        let H := fresh "Hatoi" in destruct (strconv_Atoi s) eqn:H
    | context [unsetenv_error ?k] =>
        let H := fresh "Hunset" in destruct (unsetenv_error k) eqn:H
    | _ => progress cbn [negb vars ops addresses listenPid listenFds listenFdnames] in Hrun
    end.

(** ** More notions: the calls of a run by kind *)

(** The descriptor an event marks close-on-exec. *)
Definition cloexec_fd (ev : sys_event) : option Z :=
  match ev with
  | SysCloseOnExec fd => Some fd
  | _ => None
  end.

(** The descriptor of the file an event closes. *)
Definition file_closed (ev : sys_event) : option Z :=
  match ev with
  | SysFileClose fd => Some fd
  | _ => None
  end.

(** The descriptor an event wraps as a listener. *)
Definition wrapped_fd (ev : sys_event) : option Z :=
  match ev with
  | SysFileListener fd (Some _) => Some fd
  | _ => None
  end.

(** The event is a call of [net.Listen]. *)
Definition is_listen (ev : sys_event) : bool :=
  match ev with
  | SysListen _ _ _ => true
  | _ => false
  end.


(** ** More notions: what decides the use of an activation variable *)

(** The value that [os.Getenv] gives for [key]. *)
Definition env_value (key : string) (e : Env) : string :=
  default EmptyString (vars e !! key).

(** A value that [parseConfig] takes for [LISTEN_PID] or [LISTEN_FDS]:
    the empty string (the variable is passed over) or an integer. *)
Definition int_or_empty (v : string) : Prop :=
  v = EmptyString \/ strconv_Atoi v <> None.

(** How the values of the three variables in the environment [e] decide
    the result [r] of [parseConfig] and the parts [s1], [s2] and [s3]
    of the history.  An empty value is read and nothing more; a value
    that is accepted is read and removed; a [LISTEN_PID] or
    [LISTEN_FDS] that is not an integer is read, the error is returned,
    and nothing is done after it. *)
Definition env_use_rules (e : Env) (r : result config) (s1 s2 s3 : list env_op) : Prop :=
  let pid := env_value "LISTEN_PID" e in
  let fds := env_value "LISTEN_FDS" e in
  let names := env_value "LISTEN_FDNAMES" e in
  (pid = EmptyString -> s1 = [EnvGet "LISTEN_PID"])
  /\ (pid <> EmptyString -> strconv_Atoi pid <> None ->
      s1 = [EnvGet "LISTEN_PID"; EnvUnset "LISTEN_PID"])
  /\ (pid <> EmptyString -> strconv_Atoi pid = None ->
      r = Err (ErrInvalidListenPid pid)
      /\ s1 = [EnvGet "LISTEN_PID"] /\ s2 = [] /\ s3 = [])
  /\ (int_or_empty pid -> fds = EmptyString -> s2 = [EnvGet "LISTEN_FDS"])
  /\ (int_or_empty pid -> fds <> EmptyString -> strconv_Atoi fds <> None ->
      s2 = [EnvGet "LISTEN_FDS"; EnvUnset "LISTEN_FDS"])
  /\ (int_or_empty pid -> fds <> EmptyString -> strconv_Atoi fds = None ->
      r = Err (ErrInvalidListenFds fds)
      /\ s2 = [EnvGet "LISTEN_FDS"] /\ s3 = [])
  /\ (int_or_empty pid -> int_or_empty fds -> is_Ok r)
  /\ (int_or_empty pid -> int_or_empty fds -> names = EmptyString ->
      s3 = [EnvGet "LISTEN_FDNAMES"])
  /\ (int_or_empty pid -> int_or_empty fds -> names <> EmptyString ->
      s3 = [EnvGet "LISTEN_FDNAMES"; EnvUnset "LISTEN_FDNAMES"]).

(** One rule of [env_use_rules] in a case of [parseConfig]. *)
Ltac rule_solve :=
  intros;
  repeat match goal with H : _ \/ _ |- _ => destruct H end;
  first [ contradiction | congruence | exact I | reflexivity
        | repeat split; reflexivity ].

(** ** More notions: the response to a request, the command line *)




(** * Runs of the model *)

Example parse_unix_abs :
  parseListenAddr plain_authority "unix:///run/foo.sock" = Ok ("unix", "/run/foo.sock").
Proof. reflexivity. Qed.

Example parse_unix_rel :
  parseListenAddr plain_authority "unix://relative/path" = Ok ("unix", "relative/path").
Proof. reflexivity. Qed.

Example parse_unix_empty :
  parseListenAddr plain_authority "unix://" = Err ErrEmptyUnixPath.
Proof. reflexivity. Qed.

Example parse_http :
  parseListenAddr plain_authority "http://example.com"
  = Err (ErrUnsupportedScheme "http").
Proof. reflexivity. Qed.

Example parse_bare_port :
  parseListenAddr plain_authority "8080" = Ok ("tcp", "8080").
Proof. reflexivity. Qed.

Example parse_host_port :
  parseListenAddr plain_authority "localhost:8080"
  = Err (ErrUnsupportedScheme "localhost").
Proof. reflexivity. Qed.

Example Atoi_minus_one : strconv_Atoi "-1" = Some (-1)%Z.
Proof. reflexivity. Qed.
Example Atoi_empty_sign : strconv_Atoi "+" = None.
Proof. reflexivity. Qed.
Example Atoi_too_big : strconv_Atoi "9223372036854775808" = None.
Proof. reflexivity. Qed.
Example Itoa_3 : strconv_Itoa 3 = "3".
Proof. reflexivity. Qed.

Example parseConfig_activation :
  let '(r, e) := parseConfig unsetenv_ok [":8080"]
                   (env_of [("LISTEN_PID", "42"); ("LISTEN_FDS", "2"); ("LISTEN_FDNAMES", "a:b")]) in
  r = Ok (mkConfig [":8080"] 42 2 ["a"; "b"])
  /\ vars e = ∅
  /\ ops e = [EnvGet "LISTEN_PID"; EnvUnset "LISTEN_PID";
              EnvGet "LISTEN_FDS"; EnvUnset "LISTEN_FDS";
              EnvGet "LISTEN_FDNAMES"; EnvUnset "LISTEN_FDNAMES"].
Proof. vm_compute. done. Qed.

Example listeners_activation :
  listeners (friendly_os 42) plain_authority
            (mkConfig ["unix:///run/x.sock"] 42 2 ["a"; "b"]) init_world
  = (Ok [mkListener 0 (Imported 3 "a"); mkListener 1 (Imported 4 "b");
         mkListener 2 (Bound "unix" "/run/x.sock")],
     mkWorld 3 {[0; 1; 2]}
       [SysCloseOnExec 3; SysFileListener 3 (Some 0); SysFileClose 3;
        SysCloseOnExec 4; SysFileListener 4 (Some 1); SysFileClose 4;
        SysListen "unix" "/run/x.sock" (Some 2)]).
Proof. vm_compute. f_equal. Qed.

(** The three ways for acquisition to fail: the import, the address
    parser, [net.Listen].  In each the listeners created before are
    closed. *)
Example listeners_import_fails :
  listeners (stuck_os 42 4) plain_authority
            (mkConfig ["unix:///run/x.sock"] 42 3 ["a"; "b"; "c"]) init_world
  = (Err (ErrCloseFile "b" "input/output error"),
     mkWorld 2 ∅
       [SysCloseOnExec 3; SysFileListener 3 (Some 0); SysFileClose 3;
        SysCloseOnExec 4; SysFileListener 4 (Some 1); SysFileClose 4;
        SysListenerClose 0; SysListenerClose 1]).
Proof. vm_compute. f_equal. Qed.

Example listeners_parse_fails :
  listeners (friendly_os 42) plain_authority
            (mkConfig ["unix:///run/x.sock"; ":8080"] 42 1 []) init_world
  = (Err (ErrInvalidListenAddress ":8080" (ErrInvalidAddressFormat "missing protocol scheme")),
     mkWorld 2 ∅
       [SysCloseOnExec 3; SysFileListener 3 (Some 0); SysFileClose 3;
        SysListen "unix" "/run/x.sock" (Some 1);
        SysListenerClose 0; SysListenerClose 1]).
Proof. vm_compute. f_equal. Qed.

Example listeners_bind_fails :
  listeners (busy_os 42 "/run/b.sock") plain_authority
            (mkConfig ["unix:///run/a.sock"; "unix:///run/b.sock"; "unix:///run/c.sock"]
                      0 0 []) init_world
  = (Err (ErrListen "unix:///run/b.sock" "unix" "address already in use"),
     mkWorld 1 ∅
       [SysListen "unix" "/run/a.sock" (Some 0);
        SysListen "unix" "/run/b.sock" None;
        SysListenerClose 0]).
Proof. vm_compute. f_equal. Qed.

Example main_without_flags :
  main (friendly_os 42) plain_authority unsetenv_ok [] (env_of []) init_world
  = (Exit 1, [mkLog LevelError "no listeners configured" []],
     mkEnv ∅ [EnvGet "LISTEN_PID"; EnvGet "LISTEN_FDS"; EnvGet "LISTEN_FDNAMES"],
     init_world).
Proof. vm_compute. f_equal. Qed.

(** * The address parser *)

Section ParserFacts.

Variable parseAuthority : string -> string + string.

(** What the [switch] of main.go:30 does once [url.Parse] has given a
    URL without a scheme. *)
Lemma parseListenAddr_no_scheme (addr : string) (u : URL) :
  url_Parse parseAuthority addr = inl u ->
  Scheme u = EmptyString ->
  parseListenAddr parseAuthority addr = Ok ("tcp", addr).
Proof.
  intros Hparse Hscheme. unfold parseListenAddr.
  rewrite Hparse, Hscheme. reflexivity.
Qed.

(** Every other scheme is refused. *)
Lemma parseListenAddr_other_scheme (addr : string) (u : URL) :
  url_Parse parseAuthority addr = inl u ->
  Scheme u <> "unix" -> Scheme u <> EmptyString ->
  parseListenAddr parseAuthority addr = Err (ErrUnsupportedScheme (Scheme u)).
Proof.
  intros Hparse Hunix Hnone. unfold parseListenAddr. rewrite Hparse.
  destruct (String.eqb_spec (Scheme u) "unix") as [|_]; [contradiction|].
  destruct (String.eqb_spec (Scheme u) "") as [|_]; [contradiction|].
  reflexivity.
Qed.

(** A failure of [url.Parse] is an invalid address. *)
Lemma parseListenAddr_parse_error (addr err : string) :
  url_Parse parseAuthority addr = inr err ->
  parseListenAddr parseAuthority addr = Err (ErrInvalidAddressFormat err).
Proof. intros Hparse. unfold parseListenAddr. rewrite Hparse. reflexivity. Qed.

End ParserFacts.

(** ** Addresses with a port *)

Lemma getScheme_from_no_scheme : forall rest i0 seen rawURL r,
  (i0 = false -> seen <> EmptyString) ->
  getScheme_from i0 seen rest rawURL = inl (EmptyString, r) ->
  r = rawURL.
Proof.
  induction rest as [|c cs IH]; intros i0 seen rawURL r Hseen Hget; cbn in Hget.
  - congruence.
  - assert (Hnext : false = false -> seen +:+ String c EmptyString <> EmptyString).
    { intros _. destruct seen; discriminate. }
    destruct (is_lower c || is_upper c); [exact (IH _ _ _ _ Hnext Hget)|].
    destruct (is_digit c || Ascii.eqb c "+" || Ascii.eqb c "-" || Ascii.eqb c ".").
    { destruct i0; [congruence|exact (IH _ _ _ _ Hnext Hget)]. }
    destruct (Ascii.eqb c ":"); [|congruence].
    destruct i0; [discriminate|].
    injection Hget as Hempty _. exfalso. apply Hseen; auto.
Qed.

Lemma strings_ToLower_empty (s : string) :
  strings_ToLower s = EmptyString -> s = EmptyString.
Proof. destruct s; [reflexivity|discriminate]. Qed.

Lemma strings_Cut_prefix (s : string) (sep : ascii) :
  strings_HasPrefix (fst (fst (strings_Cut s sep))) "/" = true ->
  strings_HasPrefix s "/" = true.
Proof.
  destruct s as [|c cs]; cbn [strings_Cut]; [auto|].
  destruct (Ascii.eqb c sep); [discriminate|].
  destruct (strings_Cut cs sep) as [[before after] found]. destruct before, cs; cbn; auto.
Qed.

Section PortForms.

Variable parseAuthority : string -> string + string.

Lemma url_parse_no_scheme (rawURL : string) (u : URL) :
  url_parse parseAuthority rawURL = inl u ->
  Scheme u = EmptyString ->
  strings_HasPrefix (fst (fst (strings_Cut rawURL "?"))) "/" = true
  \/ strings_Contains (fst (fst (strings_Cut (fst (fst (strings_Cut rawURL "?"))) "/"))) ":"
     = false.
Proof.
  unfold url_parse. intros Hparse Hscheme.
  destruct (stringContainsCTLByte rawURL); [discriminate|].
  destruct (String.eqb_spec rawURL "*") as [->|_]; [right; reflexivity|].
  destruct (getScheme rawURL) as [[scheme rest]|err] eqn:Hget; [|discriminate].
  destruct (strings_Cut rest "?") as [[rest1 rawQuery] found] eqn:Hcut.
  assert (Hlow : strings_ToLower scheme = EmptyString).
  { destruct (negb (strings_HasPrefix rest1 "/") && negb (strings_ToLower scheme =? "")%string);
      [injection Hparse as <-; exact Hscheme|].
    destruct (negb (strings_HasPrefix rest1 "/")
              && strings_Contains (fst (fst (strings_Cut rest1 "/"))) ":"); [discriminate|].
    destruct ((negb (strings_ToLower scheme =? "")%string
               || negb (strings_HasPrefix rest1 "///")) && strings_HasPrefix rest1 "//").
    - destruct (strings_Cut _ "/") as [[authority after] found'].
      destruct (parseAuthority authority); [|discriminate].
      destruct (unescape _); [|discriminate].
      injection Hparse as <-. exact Hscheme.
    - destruct (unescape _); [|discriminate].
      injection Hparse as <-. exact Hscheme. }
  apply strings_ToLower_empty in Hlow. subst scheme.
  apply getScheme_from_no_scheme in Hget; [|discriminate]. subst rest.
  rewrite Hcut. cbn [fst].
  destruct (strings_HasPrefix rest1 "/"); [left; reflexivity|right].
  cbn [negb andb] in Hparse.
  destruct (strings_Contains (fst (fst (strings_Cut rest1 "/"))) ":");
    [discriminate|reflexivity].
Qed.

(** X16: an address that is accepted as a TCP target and does not begin
    with [/] has no colon before its first [/], [?] or [#]: no address
    of the form [host:port] is accepted. *)
Lemma parseListenAddr_tcp_no_port (addr target : string) :
  parseListenAddr parseAuthority addr = Ok ("tcp", target) ->
  target = addr
  /\ (strings_HasPrefix addr "/" = false ->
      strings_Contains (first_segment addr) ":" = false).
Proof.
  unfold parseListenAddr.
  destruct (url_Parse parseAuthority addr) as [u|err] eqn:Hparse; [|discriminate].
  destruct (String.eqb_spec (Scheme u) "unix") as [_|_].
  { destruct (String.eqb _ _); [discriminate|]. intros H. discriminate. }
  destruct (String.eqb_spec (Scheme u) "") as [Hscheme|_]; [|discriminate].
  intros Hok. injection Hok as <-. split; [reflexivity|].
  intros Hrooted. unfold url_Parse in Hparse. unfold first_segment.
  destruct (strings_Cut addr "#") as [[u0 frag] found] eqn:Hcut. cbn [fst].
  destruct (url_parse parseAuthority u0) as [url|] eqn:Hurl; [|discriminate].
  assert (Hs : Scheme url = EmptyString).
  { destruct (String.eqb frag ""); [congruence|].
    destruct (unescape frag); [|discriminate].
    injection Hparse as <-. exact Hscheme. }
  destruct (url_parse_no_scheme u0 url Hurl Hs) as [Hprefix|Hcolon]; [|exact Hcolon].
  apply strings_Cut_prefix in Hprefix.
  assert (Hu0 : u0 = fst (fst (strings_Cut addr "#"))) by (rewrite Hcut; reflexivity).
  rewrite Hu0 in Hprefix. apply strings_Cut_prefix in Hprefix. congruence.
Qed.

End PortForms.

(** C1 (the code departs from it): the addresses [:8080] and
    [127.0.0.1:80], which the help text of the [-listen] flag gives as
    the TCP forms, are not returned as TCP targets.  [url.Parse] fails on
    both, on the first for its missing scheme and on the second for the
    colon in its first path segment, and [parseListenAddr] returns the
    invalid-address error, whatever the authority parser does. *)
Theorem parseListenAddr_rejects_port_forms (parseAuthority : string -> string + string) :
  parseListenAddr parseAuthority ":8080"
  = Err (ErrInvalidAddressFormat "missing protocol scheme")
  /\ parseListenAddr parseAuthority "127.0.0.1:80"
     = Err (ErrInvalidAddressFormat "first path segment in URL cannot contain colon").
Proof. split; reflexivity. Qed.

(** C7: for an address that [url.Parse] reads as a URL of scheme [unix],
    the parser returns the transport [unix] and the host followed by the
    path when that text is not empty, and fails with an invalid-address
    error when it is empty. *)
Theorem parseListenAddr_unix (parseAuthority : string -> string + string)
    (addr : string) (u : URL) :
  url_Parse parseAuthority addr = inl u ->
  Scheme u = "unix" ->
  (Host u +:+ Path u <> EmptyString ->
   parseListenAddr parseAuthority addr = Ok ("unix", Host u +:+ Path u))
  /\ (Host u +:+ Path u = EmptyString ->
      parseListenAddr parseAuthority addr = Err ErrEmptyUnixPath
      /\ is_InvalidAddress ErrEmptyUnixPath = true).
Proof.
  intros Hparse Hscheme. unfold parseListenAddr. rewrite Hparse, Hscheme.
  cbn [String.eqb Ascii.eqb Bool.eqb].
  destruct (String.eqb_spec (Host u) "") as [Hhost|Hhost]; cbn [negb].
  - rewrite Hhost. cbn [String.append].
    destruct (String.eqb_spec (Path u) "") as [Hpath|Hpath]; split; intros H;
      try contradiction; auto.
  - destruct (String.eqb_spec (Host u +:+ Path u) "") as [Hpath|Hpath]; split; intros H;
      try contradiction; auto.
Qed.

Lemma parseListenAddr_unix_witness :
  parseListenAddr plain_authority "unix://relative/path" = Ok ("unix", "relative/path")
  /\ parseListenAddr plain_authority "unix://" = Err ErrEmptyUnixPath.
Proof.
  split.
  - refine (proj1 (parseListenAddr_unix plain_authority "unix://relative/path"
                     (mkURL "unix" "" "relative" "/path" "" "") eq_refl eq_refl) _).
    discriminate.
  - refine (proj1 (proj2 (parseListenAddr_unix plain_authority "unix://"
                     (mkURL "unix" "" "" "" "" "") eq_refl eq_refl) eq_refl)).
Defined.

(** * The import of inherited descriptors: when it does nothing *)

(** C4: when the configured owning process id is 0 or is not the id of
    the running process, the import phase leaves the listeners and the
    world as they are and sets no error, whatever the descriptor count
    and the names are; acquisition is then the binding of the configured
    addresses alone. *)
Theorem import_phase_not_owner (os : OS) (parseAuthority : string -> string + string)
    (c : config) (w : World) :
  listenPid c = 0%Z \/ listenPid c <> os_Getpid os ->
  import_phase os c [] w = ([], None, w)
  /\ listeners_body os parseAuthority c w = bind_phase os parseAuthority (addresses c) [] w.
Proof.
  intros Hpid.
  assert (Hoff : import_phase os c [] w = ([], None, w)).
  { unfold import_phase.
    destruct Hpid as [Hzero|Hother].
    - rewrite Hzero. reflexivity.
    - destruct (Z.eqb_spec (listenPid c) (os_Getpid os)) as [Heq|_]; [contradiction|].
      rewrite andb_false_r. reflexivity. }
  split; [exact Hoff|].
  unfold listeners_body. rewrite Hoff. reflexivity.
Qed.

Lemma import_phase_not_owner_witness :
  import_phase (friendly_os 42) (mkConfig [] 0 2 ["a"; "b"]) [] init_world
  = ([], None, init_world)
  /\ import_phase (friendly_os 42) (mkConfig [] 41 2 ["a"; "b"]) [] init_world
     = ([], None, init_world).
Proof.
  split.
  - refine (proj1 (import_phase_not_owner (friendly_os 42) plain_authority
                     (mkConfig [] 0 2 ["a"; "b"]) init_world _)).
    left. reflexivity.
  - refine (proj1 (import_phase_not_owner (friendly_os 42) plain_authority
                     (mkConfig [] 41 2 ["a"; "b"]) init_world _)).
    right. discriminate.
Defined.

(** C10: with a matching owning process id and a descriptor count of
    zero or less, the loop of the import phase runs no iteration: no
    listener is imported, no error is set, and the world, with its
    history of calls on descriptors, is the one before.  The witness
    takes the configuration from [LISTEN_FDS=-1], which [parseConfig]
    accepts. *)
Theorem import_phase_count_not_positive (os : OS) (c : config) (w : World) :
  listenPid c <> 0%Z ->
  listenPid c = os_Getpid os ->
  (listenFds c <= 0)%Z ->
  import_phase os c [] w = ([], None, w).
Proof.
  intros Hpid Hown Hcount. unfold import_phase.
  destruct (Z.eqb_spec (listenPid c) 0) as [|_]; [contradiction|].
  rewrite Hown, Z.eqb_refl. cbn [negb andb].
  replace (Z.to_nat (listenFds c)) with O by lia.
  reflexivity.
Qed.

Lemma import_phase_count_not_positive_witness :
  fst (parseConfig unsetenv_ok []
         (env_of [("LISTEN_PID", "42"); ("LISTEN_FDS", "-1")]))
  = Ok (mkConfig [] 42 (-1) [])
  /\ import_phase (friendly_os 42) (mkConfig [] 42 (-1) []) [] init_world
     = ([], None, init_world).
Proof.
  split; [vm_compute; reflexivity|].
  apply (import_phase_count_not_positive (friendly_os 42) (mkConfig [] 42 (-1) []) init_world).
  - discriminate.
  - reflexivity.
  - discriminate.
Defined.

(** * The start of [main] and the handler *)

(** C8: when acquisition returns an empty set of listeners, [main] logs
    the error and exits with code 1, and no serving task has been
    started; and whenever serving tasks are started, there is at least
    one, one for each acquired listener. *)
Theorem main_empty_listener_set (os : OS) (parseAuthority : string -> string + string)
    (unsetenv_error : string -> option string)
    (flags : list string) (e e1 : Env) (w w1 : World) (cfg : config) (ls : list Listener) :
  parseConfig unsetenv_error flags e = (Ok cfg, e1) ->
  listeners os parseAuthority cfg w = (Ok ls, w1) ->
  (ls = [] ->
   main os parseAuthority unsetenv_error flags e w
   = (Exit 1, [mkLog LevelError "no listeners configured" []], e1, w1))
  /\ (ls = [] ->
      serving_tasks (fst (fst (fst (main os parseAuthority unsetenv_error flags e w)))) = [])
  /\ (forall tasks,
        fst (fst (fst (main os parseAuthority unsetenv_error flags e w))) = Serve tasks ->
        tasks = ls /\ tasks <> []).
Proof.
  intros Hcfg Hls. unfold main. rewrite Hcfg, Hls.
  destruct ls as [|l ls]; cbn.
  - split; [reflexivity|]. split; [reflexivity|].
    intros tasks Htasks. discriminate.
  - split; [discriminate|]. split; [discriminate|].
    intros tasks Htasks. injection Htasks as <-. split; [reflexivity|discriminate].
Qed.

Lemma main_empty_listener_set_witness :
  main (friendly_os 42) plain_authority unsetenv_ok [] (env_of []) init_world
  = (Exit 1, [mkLog LevelError "no listeners configured" []],
     mkEnv ∅ [EnvGet "LISTEN_PID"; EnvGet "LISTEN_FDS"; EnvGet "LISTEN_FDNAMES"],
     init_world).
Proof.
  refine (proj1 (main_empty_listener_set (friendly_os 42) plain_authority unsetenv_ok
                   [] (env_of []) _ init_world init_world (mkConfig [] 0 0 []) [] _ _) eq_refl).
  - vm_compute. reflexivity.
  - vm_compute. reflexivity.
Defined.



(** On a connection that refuses the write the status has gone out, the
    body has not, and the failure is logged as a warning after the
    request. *)
Lemma handler_write_failed (r : Request) (log : list log_record) (err : string) :
  String.eqb (Method r) "HEAD" = false ->
  handler (new_response r (Some err)) r log
  = (mkResponse (Method r) (Some 200%Z) EmptyString (Some err),
     (log ++ [mkLog LevelInfo "request"
                [("method", LogString (Method r));
                 ("path", LogString (URL_Path r));
                 ("remote", LogString (RemoteAddr r))]])
     ++ [mkLog LevelWarn "write failed" [("error", LogCause err)]]).
Proof.
  intros Hmethod. unfold handler, new_response, rw_Write.
  cbn [rw_method rw_status rw_body rw_broken]. rewrite Hmethod. reflexivity.
Qed.

(** * Acquisition: all or nothing *)

Lemma acquired_refl ls w : acquired ls w ls w [].
Proof.
  split; cbn; rewrite ?app_nil_r, ?Nat.sub_diag; auto. set_solver.
Qed.

Lemma acquired_trans ls w ls1 w1 evs1 ls2 w2 evs2 :
  acquired ls w ls1 w1 evs1 ->
  acquired ls1 w1 ls2 w2 evs2 ->
  acquired ls w ls2 w2 (evs1 ++ evs2).
Proof.
  intros [Hs1 Hi1 Hf1 Hn1 Ho1 Hc1] [Hs2 Hi2 Hf2 Hn2 Ho2 Hc2].
  split.
  - rewrite Hs2, Hs1, app_assoc. reflexivity.
  - unfold created_ids in *. rewrite omap_app, Hi2, Hi1, app_assoc. reflexivity.
  - unfold created_ids in *. rewrite omap_app, Hf1, Hf2.
    replace (next_listener w2 - next_listener w)
      with ((next_listener w1 - next_listener w) + (next_listener w2 - next_listener w1)) by lia.
    rewrite seq_app. do 2 f_equal. lia.
  - lia.
  - unfold created_ids in *. rewrite Ho2, Ho1, omap_app, list_to_set_app_L. set_solver.
  - apply Forall_app. split; assumption.
Qed.

(** A call that creates no listener and closes none. *)
Lemma acquired_log ls w ev :
  created_id ev = None -> is_close ev = false ->
  acquired ls w ls (log_event ev w) [ev].
Proof.
  intros Hnone Hclose. split; cbn; unfold created_ids; cbn; rewrite ?Hnone, ?Nat.sub_diag;
    cbn; rewrite ?app_nil_r; auto. set_solver.
Qed.

(** A call that creates the listener [l] and appends it. *)
Lemma acquired_create ls w ev o :
  created_id ev = Some (next_listener w) -> is_close ev = false ->
  acquired ls w (ls ++ [mkListener (next_listener w) o])
           (mkWorld (S (next_listener w)) ({[next_listener w]} ∪ open_listeners w)
                    (syscalls w ++ [ev])) [ev].
Proof.
  intros Hsome Hclose. split; cbn; unfold created_ids; cbn; rewrite ?Hsome; cbn.
  - reflexivity.
  - rewrite map_app. reflexivity.
  - replace (S (next_listener w) - next_listener w) with 1 by lia. reflexivity.
  - lia.
  - set_solver.
  - auto.
Qed.

Section AcquisitionFacts.

Variable os : OS.
Variable parseAuthority : string -> string + string.

Lemma import_loop_acquired c n : forall i ls w ls' err w',
  import_loop os c n i ls w = (ls', err, w') ->
  exists evs, acquired ls w ls' w' evs.
Proof.
  induction n as [|n IH]; intros i ls w ls' err w' Hloop; cbn in Hloop.
  - injection Hloop as <- <- <-. exists []. apply acquired_refl.
  - pose proof (acquired_log ls w (SysCloseOnExec (slot_fd i)) eq_refl eq_refl) as Hcloexec.
    unfold syscall_CloseOnExec in Hloop.
    set (w0 := log_event (SysCloseOnExec (slot_fd i)) w) in *.
    unfold os_NewFile in Hloop.
    destruct (slot_fd i <? 0)%Z; cbn in Hloop.
    + apply IH in Hloop as [evs Hevs].
      eexists. eapply acquired_trans; eassumption.
    + destruct (FileListener_ok os w0 (slot_fd i)).
      * pose proof (acquired_create ls w0
                      (SysFileListener (slot_fd i) (Some (next_listener w0)))
                      (Imported (slot_fd i) (slot_name c i)) eq_refl eq_refl) as Hwrap.
        cbn in Hloop.
        match type of Hloop with
        | context [log_event (SysFileClose ?fd) ?wx] =>
            pose proof (acquired_log (ls ++ [mkListener (next_listener w0)
                                               (Imported (slot_fd i) (slot_name c i))])
                          wx (SysFileClose fd) eq_refl eq_refl) as Hclose
        end.
        destruct (FileClose_error os _ _) as [ferr|].
        -- injection Hloop as <- <- <-.
           eexists. eapply acquired_trans; [eassumption|].
           eapply acquired_trans; eassumption.
        -- apply IH in Hloop as [evs Hevs].
           eexists. eapply acquired_trans; [eassumption|].
           eapply acquired_trans; [eassumption|].
           eapply acquired_trans; eassumption.
      * cbn in Hloop. apply IH in Hloop as [evs Hevs].
        pose proof (acquired_log ls w0 (SysFileListener (slot_fd i) None) eq_refl eq_refl).
        eexists. eapply acquired_trans; [eassumption|].
        eapply acquired_trans; eassumption.
Qed.

Lemma import_phase_acquired c ls w ls' err w' :
  import_phase os c ls w = (ls', err, w') ->
  exists evs, acquired ls w ls' w' evs.
Proof.
  unfold import_phase.
  destruct (negb (listenPid c =? 0)%Z && (listenPid c =? os_Getpid os)%Z).
  - apply import_loop_acquired.
  - intros H. injection H as <- <- <-. exists []. apply acquired_refl.
Qed.

Lemma bind_phase_acquired addrs : forall ls w ls' err w',
  bind_phase os parseAuthority addrs ls w = (ls', err, w') ->
  exists evs, acquired ls w ls' w' evs.
Proof.
  induction addrs as [|addr addrs IH]; intros ls w ls' err w' Hbind; cbn in Hbind.
  - injection Hbind as <- <- <-. exists []. apply acquired_refl.
  - destruct (parseListenAddr parseAuthority addr) as [[network address]|parseErr].
    + unfold net_Listen in Hbind.
      destruct (Listen_error os w network address) as [lerr|].
      * injection Hbind as <- <- <-.
        eexists. apply (acquired_log ls w (SysListen network address None)); reflexivity.
      * apply IH in Hbind as [evs Hevs].
        eexists. eapply acquired_trans; [|eassumption].
        apply (acquired_create ls w (SysListen network address (Some (next_listener w)))
                 (Bound network address)); reflexivity.
    + injection Hbind as <- <- <-. exists []. apply acquired_refl.
Qed.

Lemma listeners_body_acquired c w ls err w' :
  listeners_body os parseAuthority c w = (ls, err, w') ->
  exists evs, acquired [] w ls w' evs.
Proof.
  unfold listeners_body.
  destruct (import_phase os c [] w) as [[ls1 [e1|]] w1] eqn:Himport.
  - intros H. injection H as <- <- <-. eapply import_phase_acquired; eassumption.
  - intros Hbind.
    apply import_phase_acquired in Himport as [evs1 H1].
    apply bind_phase_acquired in Hbind as [evs2 H2].
    eexists. eapply acquired_trans; eassumption.
Qed.

End AcquisitionFacts.

(** The deferred loop closes the listeners of the variable one by one. *)
Lemma close_all_spec ls : forall w,
  next_listener (close_all ls w) = next_listener w
  /\ open_listeners (close_all ls w) = open_listeners w ∖ list_to_set (map l_id ls)
  /\ syscalls (close_all ls w) = syscalls w ++ map SysListenerClose (map l_id ls).
Proof.
  induction ls as [|l ls IH]; intros w.
  - cbn. rewrite app_nil_r. repeat split; auto. set_solver.
  - change (close_all (l :: ls) w) with (close_all ls (snd (Listener_Close l w))).
    destruct (IH (snd (Listener_Close l w))) as (Hn & Ho & Hs).
    rewrite Hn, Ho, Hs. cbn. rewrite <- app_assoc. cbn.
    repeat split; auto. set_solver.
Qed.

(** C2: when [listeners] returns an error, the calls it has made are the
    calls of the acquisition, none of which closes a listener, followed
    by one [Close] for every listener the acquisition has created, in the
    order of creation; each of these listeners has been created once, and
    none of them is open when the error is returned.  The error may come
    from the import, from the address parser or from [net.Listen]. *)
Theorem listeners_all_or_nothing (os : OS) (parseAuthority : string -> string + string)
    (c : config) (w w' : World) (e : error) :
  listeners os parseAuthority c w = (Err e, w') ->
  exists evs,
    syscalls w' = syscalls w ++ evs ++ map SysListenerClose (created_ids evs)
    /\ Forall (fun ev => is_close ev = false) evs
    /\ NoDup (created_ids evs)
    /\ open_listeners w' = open_listeners w ∖ list_to_set (created_ids evs)
    /\ (forall l, l ∈ created_ids evs -> l ∉ open_listeners w').
Proof.
  unfold listeners.
  destruct (listeners_body os parseAuthority c w) as [[ls [err|]] w1] eqn:Hbody;
    intros Hret; [|discriminate].
  injection Hret as -> <-.
  apply listeners_body_acquired in Hbody as [evs [Hs Hi Hf Hn Ho Hc]].
  cbn in Hi. unfold deferred.
  destruct (close_all_spec ls w1) as (_ & Hopen & Hsys).
  assert (Hfinal : open_listeners (close_all ls w1)
                   = open_listeners w ∖ list_to_set (created_ids evs)).
  { rewrite Hopen, Hi, Ho. set_solver. }
  exists evs. repeat split.
  - rewrite Hsys, Hs, Hi, app_assoc. reflexivity.
  - exact Hc.
  - rewrite Hf. apply NoDup_seq.
  - exact Hfinal.
  - intros l Hl. rewrite Hfinal. set_solver.
Qed.

Lemma listeners_all_or_nothing_witness :
  let c := mkConfig ["unix:///run/a.sock"; "unix:///run/b.sock"; "unix:///run/c.sock"]
                    42 1 [] in
  let w' := mkWorld 2 ∅
              [SysCloseOnExec 3; SysFileListener 3 (Some 0); SysFileClose 3;
               SysListen "unix" "/run/a.sock" (Some 1);
               SysListen "unix" "/run/b.sock" None;
               SysListenerClose 0; SysListenerClose 1] in
  listeners (busy_os 42 "/run/b.sock") plain_authority c init_world
  = (Err (ErrListen "unix:///run/b.sock" "unix" "address already in use"), w')
  /\ exists evs,
       syscalls w' = syscalls init_world ++ evs ++ map SysListenerClose (created_ids evs)
       /\ Forall (fun ev => is_close ev = false) evs
       /\ NoDup (created_ids evs)
       /\ open_listeners w' = open_listeners init_world ∖ list_to_set (created_ids evs)
       /\ (forall l, l ∈ created_ids evs -> l ∉ open_listeners w').
Proof.
  intros c w'.
  assert (Hrun : listeners (busy_os 42 "/run/b.sock") plain_authority c init_world
                 = (Err (ErrListen "unix:///run/b.sock" "unix" "address already in use"), w')).
  { vm_compute. f_equal. }
  split; [exact Hrun|].
  exact (listeners_all_or_nothing _ _ _ _ _ _ Hrun).
Defined.

(** * Acquisition: names and order *)

Lemma slot_name_spec (c : config) (i : Z) :
  (0 <= i)%Z -> slot_name c i = spec_name (listenFdnames c) i (slot_fd i).
Proof.
  intros Hi. unfold slot_name, spec_name.
  destruct (listenFdnames c !! Z.to_nat i) as [name|] eqn:Hlookup.
  - rewrite (nth_lookup_Some _ _ _ _ Hlookup).
    apply lookup_lt_Some in Hlookup.
    destruct (Z.ltb_spec i (Z.of_nat (length (listenFdnames c)))) as [_|Hge]; [|lia].
    destruct name; reflexivity.
  - apply lookup_ge_None in Hlookup.
    destruct (Z.ltb_spec i (Z.of_nat (length (listenFdnames c)))) as [Hlt|_]; [lia|].
    reflexivity.
Qed.

Lemma wrap_int_small (z : Z) : (int_min <= z <= int_max)%Z -> wrap_int z = z.
Proof.
  unfold wrap_int, int_min, int_max. intros Hz.
  rewrite Z.mod_small; lia.
Qed.

(** A slot whose descriptor is not negative has the descriptor
    [listenFdsStart + i]. *)
Lemma slot_fd_nonneg (i : Z) :
  (0 <= i <= int_max)%Z -> (0 <= slot_fd i)%Z -> slot_fd i = (listenFdsStart + i)%Z.
Proof.
  unfold slot_fd, wrap_int, listenFdsStart, int_max. intros Hi Hfd.
  destruct (Z_lt_le_dec (3 + i) (2 ^ 63)) as [Hlt|Hge].
  - rewrite Z.mod_small; lia.
  - exfalso.
    replace (3 + i + 2 ^ 63)%Z with ((3 + i - 2 ^ 63) + 1 * 2 ^ 64)%Z in Hfd by lia.
    rewrite Z.mod_add, Z.mod_small in Hfd; lia.
Qed.

Lemma seqZ_succ (i : Z) (n : nat) :
  seqZ i (Z.of_nat (S n)) = i :: seqZ (i + 1) (Z.of_nat n).
Proof.
  rewrite seqZ_cons by lia. f_equal. f_equal; lia.
Qed.

Lemma seqZ_sorted (n : nat) : forall i, StronglySorted Z.lt (seqZ i (Z.of_nat n)).
Proof.
  induction n as [|n IH]; intros i.
  - rewrite seqZ_nil by lia. constructor.
  - rewrite seqZ_succ. constructor; [apply IH|].
    apply Forall_forall. intros j Hj. apply elem_of_seqZ in Hj. lia.
Qed.

Lemma sublist_sorted (l1 l2 : list Z) :
  l1 `sublist_of` l2 -> StronglySorted Z.lt l2 -> StronglySorted Z.lt l1.
Proof.
  induction 1 as [|x l1 l2 Hsub IH|x l1 l2 Hsub IH]; intros Hsorted.
  - constructor.
  - apply StronglySorted_inv in Hsorted as [Hrest Hx].
    constructor; [auto|].
    eapply Forall_impl; [|intros ? Hlt; exact Hlt].
    apply Forall_forall. intros y Hy.
    rewrite Forall_forall in Hx. apply Hx. eapply sublist_subseteq; eassumption.
  - apply StronglySorted_inv in Hsorted as [Hrest _]. auto.
Qed.

Section OrderFacts.

Variable os : OS.
Variable parseAuthority : string -> string + string.

(** The listeners the loop appends come from slots taken in ascending
    order, each with the descriptor and the name of its slot; a slot
    with a negative descriptor gives none. *)
Lemma import_loop_origins c n : forall i ls w ls' err w',
  (0 <= i)%Z ->
  import_loop os c n i ls w = (ls', err, w') ->
  exists slots imp,
    ls' = ls ++ imp
    /\ slots `sublist_of` seqZ i (Z.of_nat n)
    /\ Forall (fun j => 0 <= slot_fd j)%Z slots
    /\ map l_origin imp
       = map (fun j => Imported (slot_fd j) (spec_name (listenFdnames c) j (slot_fd j))) slots.
Proof.
  induction n as [|n IH]; intros i ls w ls' err w' Hi Hloop.
  - cbn in Hloop. injection Hloop as <- <- <-.
    exists [], []. rewrite app_nil_r, seqZ_nil by lia. repeat split; constructor.
  - rewrite seqZ_succ. cbn [import_loop] in Hloop.
    unfold os_NewFile in Hloop.
    destruct (Z.ltb_spec (slot_fd i) 0) as [Hneg|Hpos]; cbn in Hloop.
    + apply IH in Hloop as (slots & imp & -> & Hsub & Hfd & Horig); [|lia].
      exists slots, imp. repeat split; auto. constructor. exact Hsub.
    + destruct (FileListener_ok os _ (slot_fd i)); cbn in Hloop.
      * destruct (FileClose_error os _ _) as [ferr|].
        -- injection Hloop as <- <- <-.
           exists [i], [mkListener (next_listener (syscall_CloseOnExec (slot_fd i) w))
                          (Imported (slot_fd i) (slot_name c i))].
           repeat split.
           ++ constructor. apply sublist_nil_l.
           ++ repeat constructor. exact Hpos.
           ++ cbn. rewrite slot_name_spec by exact Hi. reflexivity.
        -- apply IH in Hloop as (slots & imp & -> & Hsub & Hfd & Horig); [|lia].
           exists (i :: slots), (mkListener (next_listener (syscall_CloseOnExec (slot_fd i) w))
                                   (Imported (slot_fd i) (slot_name c i)) :: imp).
           repeat split.
           ++ rewrite <- app_assoc. reflexivity.
           ++ constructor. exact Hsub.
           ++ constructor; assumption.
           ++ cbn. rewrite Horig, slot_name_spec by exact Hi. reflexivity.
      * apply IH in Hloop as (slots & imp & -> & Hsub & Hfd & Horig); [|lia].
        exists slots, imp. repeat split; auto. constructor. exact Hsub.
Qed.


Lemma bind_phase_bound addrs : forall ls w ls' w',
  bind_phase os parseAuthority addrs ls w = (ls', None, w') ->
  exists bound, ls' = ls ++ bound /\ Forall2 (bound_from parseAuthority) bound addrs.
Proof.
  induction addrs as [|addr addrs IH]; intros ls w ls' w' Hbind; cbn in Hbind.
  - injection Hbind as <- <-. exists []. rewrite app_nil_r. split; constructor.
  - destruct (parseListenAddr parseAuthority addr) as [[network address]|parseErr] eqn:Hparse;
      [|discriminate].
    unfold net_Listen in Hbind.
    destruct (Listen_error os w network address) as [lerr|]; [discriminate|].
    apply IH in Hbind as (bound & -> & Hall).
    exists (mkListener (next_listener w) (Bound network address) :: bound). split.
    + rewrite <- app_assoc. reflexivity.
    + constructor; [|exact Hall]. exists network, address. split; [exact Hparse|reflexivity].
Qed.

Lemma descriptors_slots (imp : list Listener) (slots : list Z) (name : Z -> string) :
  map l_origin imp = map (fun j => Imported (listenFdsStart + j) (name j)) slots ->
  descriptors imp = map (Z.add listenFdsStart) slots.
Proof.
  revert slots. induction imp as [|l imp IH]; intros [|j slots] Hmap;
    try discriminate; [reflexivity|].
  cbn in Hmap. injection Hmap as Hl Hrest.
  unfold descriptors in *. cbn. unfold descriptor at 1. rewrite Hl. cbn.
  f_equal. apply IH. exact Hrest.
Qed.

End OrderFacts.

Lemma seqZ_to_nat (i n : Z) : seqZ i (Z.of_nat (Z.to_nat n)) = seqZ i n.
Proof. unfold seqZ. rewrite Nat2Z.id. reflexivity. Qed.

Lemma origins_unwrapped (names : list string) (slots : list Z) :
  Forall (fun j => 0 <= j <= int_max)%Z slots ->
  Forall (fun j => 0 <= slot_fd j)%Z slots ->
  map (fun j => Imported (slot_fd j) (spec_name names j (slot_fd j))) slots
  = map (fun j => Imported (listenFdsStart + j) (spec_name names j (listenFdsStart + j))) slots.
Proof.
  induction 1 as [|j slots Hj Hrange IH]; intros Hfd; [reflexivity|].
  apply Forall_cons in Hfd as [Hfdj Hfds].
  cbn. rewrite IH by exact Hfds.
  rewrite (slot_fd_nonneg j Hj Hfdj). reflexivity.
Qed.

Lemma add_sorted (k : Z) (l : list Z) :
  StronglySorted Z.lt l -> StronglySorted Z.lt (map (Z.add k) l).
Proof.
  induction 1 as [|x l Hsorted IH Hx]; cbn; constructor; [exact IH|].
  apply Forall_forall. intros y Hy.
  apply list_elem_of_In, in_map_iff in Hy as (z & <- & Hz).
  rewrite Forall_forall in Hx. apply list_elem_of_In, Hx in Hz. lia.
Qed.



(** C6: when acquisition succeeds, the returned list is the listeners
    of the import phase followed by the listeners bound for the
    configured addresses.  The imported ones come from slots in
    ascending order, so their descriptors [3 + i] are in ascending
    order; the bound ones are, one for one and in the order of the
    configuration, the listeners of the transport and target that the
    address parser gives for the addresses. *)
Theorem listeners_order (os : OS) (parseAuthority : string -> string + string)
    (c : config) (w w' : World) (ls : list Listener) :
  (listenFds c <= int_max)%Z ->
  listeners os parseAuthority c w = (Ok ls, w') ->
  exists imported bound w1 slots,
    ls = imported ++ bound
    /\ import_phase os c [] w = (imported, None, w1)
    /\ slots `sublist_of` seqZ 0 (listenFds c)
    /\ map l_origin imported
       = map (fun i => Imported (listenFdsStart + i)
                         (spec_name (listenFdnames c) i (listenFdsStart + i))) slots
    /\ StronglySorted Z.lt (descriptors imported)
    /\ descriptors ls = descriptors imported
    /\ Forall2 (bound_from parseAuthority) bound (addresses c).
Proof.
  intros Hmax. unfold listeners.
  destruct (listeners_body os parseAuthority c w) as [[ls0 [err|]] w0] eqn:Hbody;
    intros Hret; [discriminate|].
  injection Hret as -> <-. unfold listeners_body in Hbody.
  destruct (import_phase os c [] w) as [[imp [e1|]] w1] eqn:Himport; [discriminate|].
  apply bind_phase_bound in Hbody as (bound & -> & Hbound).
  assert (Hslots : exists slots,
             slots `sublist_of` seqZ 0 (listenFds c)
             /\ map l_origin imp
                = map (fun i => Imported (listenFdsStart + i)
                                  (spec_name (listenFdnames c) i (listenFdsStart + i))) slots).
  { unfold import_phase in Himport.
    destruct (negb (listenPid c =? 0)%Z && (listenPid c =? os_Getpid os)%Z).
    - apply import_loop_origins in Himport as (slots & imp0 & -> & Hsub & Hfd & Horig); [|lia].
      rewrite seqZ_to_nat in Hsub.
      exists slots. split; [exact Hsub|].
      cbn [app]. rewrite Horig. apply origins_unwrapped; [|exact Hfd].
      apply Forall_forall. intros j Hj.
      apply (sublist_subseteq _ _ Hsub), elem_of_seqZ in Hj. lia.
    - injection Himport as <- <-. exists []. split; [apply sublist_nil_l|reflexivity]. }
  destruct Hslots as (slots & Hsub & Horig).
  exists imp, bound, w1, slots.
  assert (Hdesc : descriptors imp = map (Z.add listenFdsStart) slots)
    by (eapply descriptors_slots; exact Horig).
  repeat split; auto.
  - rewrite Hdesc. apply add_sorted.
    apply (sublist_sorted _ _ Hsub). rewrite <- seqZ_to_nat. apply seqZ_sorted.
  - unfold descriptors. rewrite omap_app.
    assert (Hnone : omap descriptor bound = []).
    { clear -Hbound. induction Hbound as [|l addr bound addrs Hl _ IH]; [reflexivity|].
      destruct Hl as (network & address & _ & Hl).
      cbn. unfold descriptor at 1. rewrite Hl. exact IH. }
    rewrite Hnone, app_nil_r. reflexivity.
Qed.

Lemma listeners_order_witness :
  let c := mkConfig ["unix:///run/x.sock"; "unix://y.sock"] 42 2 ["a"; "b"] in
  let ls := [mkListener 0 (Imported 3 "a"); mkListener 1 (Imported 4 "b");
             mkListener 2 (Bound "unix" "/run/x.sock");
             mkListener 3 (Bound "unix" "y.sock")] in
  exists w',
    listeners (friendly_os 42) plain_authority c init_world = (Ok ls, w')
    /\ exists imported bound w1 slots,
         ls = imported ++ bound
         /\ import_phase (friendly_os 42) c [] init_world = (imported, None, w1)
         /\ slots `sublist_of` seqZ 0 (listenFds c)
         /\ map l_origin imported
            = map (fun i => Imported (listenFdsStart + i)
                              (spec_name (listenFdnames c) i (listenFdsStart + i))) slots
         /\ StronglySorted Z.lt (descriptors imported)
         /\ descriptors ls = descriptors imported
         /\ Forall2 (bound_from plain_authority) bound (addresses c).
Proof.
  intros c ls.
  exists (snd (listeners (friendly_os 42) plain_authority c init_world)).
  assert (Hrun : listeners (friendly_os 42) plain_authority c init_world
                 = (Ok ls, snd (listeners (friendly_os 42) plain_authority c init_world))).
  { vm_compute. f_equal. }
  split; [exact Hrun|].
  assert (Hmax : (listenFds c <= int_max)%Z) by discriminate.
  exact (listeners_order (friendly_os 42) plain_authority c init_world _ ls Hmax Hrun).
Defined.

(** * Configuration parsing and the activation variables *)

Lemma strconv_Atoi_range (s : string) (n : Z) :
  strconv_Atoi s = Some n -> is_int n.
Proof.
  unfold strconv_Atoi.
  destruct (match s with
            | EmptyString => (false, s)
            | String c r => _
            end) as [neg digits].
  destruct digits as [|d ds]; [discriminate|].
  destruct (digits_value 0 (String d ds)) as [v|]; [|discriminate].
  destruct ((int_min <=? (if neg then (- v)%Z else v))%Z
            && ((if neg then (- v)%Z else v) <=? int_max)%Z) eqn:Hrange; [|discriminate].
  intros Hn. injection Hn as <-.
  apply andb_prop in Hrange as [Hlo Hhi]. unfold is_int. lia.
Qed.

(** X7: the integers of a configuration that [parseConfig] returns are
    in the range of [int], whatever the environment holds: a value out
    of the range is refused by [strconv.Atoi]. *)
Lemma parseConfig_int_range (unsetenv_error : string -> option string)
    (flags : list string) (e e' : Env) (cfg : config) :
  parseConfig unsetenv_error flags e = (Ok cfg, e') ->
  is_int (listenPid cfg) /\ is_int (listenFds cfg).
Proof.
  assert (Hzero : is_int 0) by (unfold is_int, int_min, int_max; lia).
  unfold parseConfig, os_Getenv, os_Unsetenv. cbn [vars ops]. intros Hrun.
  repeat match type of Hrun with
    | context [String.eqb ?s EmptyString] => destruct (String.eqb s EmptyString)
    | context [strconv_Atoi ?s] =>
        let H := fresh "Hatoi" in
        destruct (strconv_Atoi s) eqn:H; [apply strconv_Atoi_range in H|]
    | context [unsetenv_error ?k] => destruct (unsetenv_error k)
    | _ => progress cbn [negb addresses listenPid listenFds listenFdnames] in Hrun
    end.
  all: try discriminate.
  all: injection Hrun as <- _; cbn; auto.
Qed.

(** C5 as it is written fails: with a [LISTEN_PID] that is not an
    integer [parseConfig] returns at once, with the variable still in the
    environment (and [LISTEN_FDS] never read); and a [LISTEN_PID] set to
    the empty string is read and left set. *)
Lemma parseConfig_leaves_variable_set :
  ~ read_once_and_unset (env_of [("LISTEN_PID", "x"); ("LISTEN_FDS", "1")])
  /\ ~ read_once_and_unset (env_of [("LISTEN_PID", "")]).
Proof.
  split; intros Hclaim.
  - destruct (Hclaim "LISTEN_PID") as [_ Hgone]; [set_solver|].
    vm_compute in Hgone. discriminate.
  - destruct (Hclaim "LISTEN_PID") as [_ Hgone]; [set_solver|].
    vm_compute in Hgone. discriminate.
Qed.

Lemma default_nonempty (o : option string) (s : string) :
  default EmptyString o = s -> s <> EmptyString -> o = Some s.
Proof. destruct o; cbn; congruence. Qed.

(** C5 (amended), with [os.Unsetenv] succeeding: [parseConfig] adds to
    the history of the environment a part for [LISTEN_PID], then one for
    [LISTEN_FDS], then one for [LISTEN_FDNAMES], each of them empty, a
    single read, or a read followed at once by the removal of the
    variable.  A variable that has been removed is absent afterwards, and
    every other variable keeps its value.  When [parseConfig] succeeds,
    each of the three has been read once and none of them has a value
    other than the empty string afterwards.  When it fails on a
    [LISTEN_PID] or [LISTEN_FDS] that is not an integer, that variable
    has been read and is still set, and the later ones have not been
    read.  Which of these happens is decided by the values alone
    ([env_use_rules]): a variable that is not set or is empty is read
    and left as it is; a value that is accepted is removed at once after
    the read; a [LISTEN_PID] or [LISTEN_FDS] that is not an integer
    gives the error, and [parseConfig] succeeds in every other case. *)
Theorem parseConfig_env_use (flags : list string) (e e' : Env) (r : result config) :
  parseConfig unsetenv_ok flags e = (r, e') ->
  exists s1 s2 s3,
    ops e' = ops e ++ s1 ++ s2 ++ s3
    /\ seg "LISTEN_PID" s1 /\ seg "LISTEN_FDS" s2 /\ seg "LISTEN_FDNAMES" s3
    /\ (forall key, EnvUnset key ∈ s1 ++ s2 ++ s3 -> vars e' !! key = None)
    /\ (forall key, EnvUnset key ∉ s1 ++ s2 ++ s3 -> vars e' !! key = vars e !! key)
    /\ (is_Ok r ->
        s1 <> [] /\ s2 <> [] /\ s3 <> []
        /\ forall key, key ∈ activation_vars -> default EmptyString (vars e' !! key) = EmptyString)
    /\ (forall pid, r = Err (ErrInvalidListenPid pid) ->
        vars e' !! "LISTEN_PID" = Some pid /\ s1 = [EnvGet "LISTEN_PID"] /\ s2 = [] /\ s3 = [])
    /\ (forall fds, r = Err (ErrInvalidListenFds fds) ->
        vars e' !! "LISTEN_FDS" = Some fds /\ s2 = [EnvGet "LISTEN_FDS"] /\ s3 = [])
    /\ env_use_rules e r s1 s2 s3.
Proof.
  intros Hrun. unfold parseConfig, os_Getenv, os_Unsetenv, unsetenv_ok in Hrun.
  cbn [vars ops] in Hrun.
  remember (default EmptyString (vars e !! "LISTEN_PID")) as pid eqn:Hpid.
  remember (default EmptyString (vars e !! "LISTEN_FDS")) as fds eqn:Hfds.
  remember (default EmptyString (vars e !! "LISTEN_FDNAMES")) as names eqn:Hnames.
  symmetry in Hpid, Hfds, Hnames.
  repeat first
    [ rewrite lookup_delete_ne in Hrun by discriminate
    | rewrite Hpid in Hrun | rewrite Hfds in Hrun | rewrite Hnames in Hrun
    | progress cbn [vars ops negb addresses listenPid listenFds listenFdnames] in Hrun
    | match type of Hrun with
      | context [String.eqb ?s EmptyString] =>
          let H := fresh "Hempty" in
          destruct (String.eqb s EmptyString) eqn:H;
          [apply String.eqb_eq in H|apply String.eqb_neq in H]
      | context [strconv_Atoi ?s] => destruct (strconv_Atoi s) eqn:?
      end ].
  all: injection Hrun as <- He'.
  all: pick_segs.
  all: split; [cbn [ops]; rewrite <- ?app_assoc; cbn [app]; reflexivity|].
  all: split; [unfold seg; auto|].
  all: split; [unfold seg; auto|].
  all: split; [unfold seg; auto|].
  all: cbn [vars app].
  all: split;
    [intros key Hin; repeat (apply elem_of_cons in Hin as [Hin|Hin]; try discriminate);
     try (by apply elem_of_nil in Hin);
     injection Hin as ->; by simplify_map_eq|].
  all: split;
    [intros key Hnot;
     rewrite ?lookup_delete_ne; [reflexivity|intros <-; apply Hnot; set_solver..]|].
  all: split;
    [cbn [is_Ok]; intros Hok;
     first
       [ contradiction
       | split; [discriminate|]; split; [discriminate|]; split; [discriminate|];
         intros key Hkey; unfold activation_vars in Hkey;
         repeat (apply elem_of_cons in Hkey as [->|Hkey]);
         try (by apply elem_of_nil in Hkey);
         by simplify_map_eq ]|].
  all: split;
    [intros bad Hbad; try discriminate; injection Hbad as <-;
     rewrite ?lookup_delete_ne by discriminate;
     (split; [apply default_nonempty; [reflexivity|assumption]|auto])|].
  all: split;
    [intros bad Hbad; try discriminate; injection Hbad as <-;
     rewrite ?lookup_delete_ne by discriminate;
     (split; [apply default_nonempty; [reflexivity|assumption]|auto])|].
  all: unfold env_use_rules, env_value, int_or_empty; cbv zeta.
  all: repeat (split; [solve [rule_solve]|]).
  all: rule_solve.
Qed.

Lemma parseConfig_env_use_witness :
  let e := env_of [("LISTEN_PID", "42"); ("LISTEN_FDS", "2"); ("LISTEN_FDNAMES", "a:b");
                   ("HOME", "/root")] in
  let r := fst (parseConfig unsetenv_ok [] e) in
  let e' := snd (parseConfig unsetenv_ok [] e) in
  r = Ok (mkConfig [] 42 2 ["a"; "b"])
  /\ vars e' !! "HOME" = Some "/root"
  /\ exists s1 s2 s3,
    ops e' = ops e ++ s1 ++ s2 ++ s3
    /\ seg "LISTEN_PID" s1 /\ seg "LISTEN_FDS" s2 /\ seg "LISTEN_FDNAMES" s3
    /\ (forall key, EnvUnset key ∈ s1 ++ s2 ++ s3 -> vars e' !! key = None)
    /\ (forall key, EnvUnset key ∉ s1 ++ s2 ++ s3 -> vars e' !! key = vars e !! key)
    /\ (is_Ok r ->
        s1 <> [] /\ s2 <> [] /\ s3 <> []
        /\ forall key, key ∈ activation_vars -> default EmptyString (vars e' !! key) = EmptyString)
    /\ (forall pid, r = Err (ErrInvalidListenPid pid) ->
        vars e' !! "LISTEN_PID" = Some pid /\ s1 = [EnvGet "LISTEN_PID"] /\ s2 = [] /\ s3 = [])
    /\ (forall fds, r = Err (ErrInvalidListenFds fds) ->
        vars e' !! "LISTEN_FDS" = Some fds /\ s2 = [EnvGet "LISTEN_FDS"] /\ s3 = [])
    /\ env_use_rules e r s1 s2 s3.
Proof.
  intros e r e'.
  split; [vm_compute; reflexivity|].
  split; [vm_compute; reflexivity|].
  apply (parseConfig_env_use [] e e' r).
  vm_compute. reflexivity.
Defined.

(** * Further properties of the address parser *)

Lemma strings_Contains_app (a b : string) (sep : ascii) :
  strings_Contains (a +:+ b) sep = strings_Contains a sep || strings_Contains b sep.
Proof.
  induction a as [|c a IH]; simpl; [reflexivity|].
  rewrite IH, orb_assoc. reflexivity.
Qed.

Lemma strings_Cut_absent (s : string) (sep : ascii) :
  strings_Contains s sep = false -> strings_Cut s sep = (s, EmptyString, false).
Proof.
  induction s as [|c s IH]; cbn; [reflexivity|].
  destruct (Ascii.eqb c sep); cbn; [discriminate|].
  intros Hs. rewrite (IH Hs). reflexivity.
Qed.

Lemma all_bytes_absent (p : ascii -> bool) (s : string) (sep : ascii) :
  p sep = false -> all_bytes p s = true -> strings_Contains s sep = false.
Proof.
  intros Hsep. induction s as [|c s IH]; cbn; [reflexivity|].
  intros Hall. apply andb_prop in Hall as [Hc Hs].
  rewrite (IH Hs), orb_false_r.
  destruct (Ascii.eqb_spec c sep) as [->|_]; [congruence|reflexivity].
Qed.

Lemma all_bytes_impl (p q : ascii -> bool) (s : string) :
  (forall c, p c = true -> q c = true) -> all_bytes p s = true -> all_bytes q s = true.
Proof.
  intros Hpq. induction s as [|c s IH]; cbn; [reflexivity|].
  intros Hall. apply andb_prop in Hall as [Hc Hs].
  rewrite (Hpq c Hc), (IH Hs). reflexivity.
Qed.

Lemma stringContainsCTLByte_app (a b : string) :
  stringContainsCTLByte (a +:+ b) = stringContainsCTLByte a || stringContainsCTLByte b.
Proof.
  induction a as [|c a IH]; simpl; [reflexivity|].
  rewrite IH, !orb_assoc. reflexivity.
Qed.

Lemma is_plain_no_ctl (s : string) :
  all_bytes is_plain s = true -> stringContainsCTLByte s = false.
Proof.
  induction s as [|c s IH]; cbn [all_bytes stringContainsCTLByte]; [reflexivity|].
  intros Hall. apply andb_prop in Hall as [Hc Hs]. rewrite (IH Hs), orb_false_r.
  unfold is_plain in Hc.
  destruct ((nat_of_ascii c <? 32)%nat || (nat_of_ascii c =? 127)%nat);
    [discriminate|reflexivity].
Qed.

Lemma unescape_plain (s : string) :
  strings_Contains s "%" = false -> unescape s = inl s.
Proof.
  induction s as [|c s IH]; cbn [unescape strings_Contains]; [reflexivity|].
  destruct (Ascii.eqb c "%"); cbn; [discriminate|].
  intros Hs. rewrite (IH Hs). reflexivity.
Qed.

Lemma substring_all (s : string) : String.substring 0 (String.length s) s = s.
Proof. induction s as [|c s IH]; cbn; [reflexivity|]. rewrite IH. reflexivity. Qed.

(** X1: whatever the address, a successful result of the parser is the
    transport [unix] with a target that is not empty, or the transport
    [tcp] with the address itself as the target. *)
Theorem parseListenAddr_result_shape (parseAuthority : string -> string + string)
    (addr network target : string) :
  parseListenAddr parseAuthority addr = Ok (network, target) ->
  (network = "unix" /\ target <> EmptyString)
  \/ (network = "tcp" /\ target = addr).
Proof.
  unfold parseListenAddr.
  destruct (url_Parse parseAuthority addr) as [u|err]; [|discriminate].
  destruct (String.eqb (Scheme u) "unix").
  - destruct (String.eqb_spec
                (if negb (Host u =? "")%string then Host u +:+ Path u else Path u) "")
      as [|Hpath]; [discriminate|].
    intros Hok. injection Hok as <- <-. left. split; [reflexivity|exact Hpath].
  - destruct (String.eqb (Scheme u) ""); [|discriminate].
    intros Hok. injection Hok as <- <-. right. split; reflexivity.
Qed.

Lemma parseListenAddr_result_shape_witness :
  ("unix" = "unix" /\ "/run/foo.sock" <> EmptyString)
  \/ ("unix" = "tcp" /\ "/run/foo.sock" = "unix:///run/foo.sock").
Proof.
  apply (parseListenAddr_result_shape plain_authority "unix:///run/foo.sock").
  reflexivity.
Defined.

Lemma append_snoc (a b : string) (c : ascii) :
  (a +:+ String c EmptyString) +:+ b = a +:+ String c b.
Proof.
  induction a as [|d a IH]; [reflexivity|].
  change (String d ((a +:+ String c EmptyString) +:+ b) = String d (a +:+ String c b)).
  rewrite IH. reflexivity.
Qed.

Lemma append_empty_r (a : string) : a +:+ EmptyString = a.
Proof.
  induction a as [|d a IH]; [reflexivity|].
  change (String d (a +:+ EmptyString) = String d a).
  rewrite IH. reflexivity.
Qed.

Lemma getScheme_from_colon (seen rest rawURL : string) :
  getScheme_from false seen (String ":" rest) rawURL = inl (seen, rest).
Proof. reflexivity. Qed.

Lemma getScheme_from_letters (host : string) : forall i0 seen rest rawURL,
  all_bytes is_letter host = true ->
  host <> EmptyString ->
  getScheme_from i0 seen (host +:+ String ":" rest) rawURL = inl (seen +:+ host, rest).
Proof.
  induction host as [|c host IH]; intros i0 seen rest rawURL Hall Hne; [contradiction|].
  cbn [all_bytes] in Hall. apply andb_prop in Hall as [Hc Hhost].
  change (String c host +:+ String ":" rest) with (String c (host +:+ String ":" rest)).
  cbn [getScheme_from].
  unfold is_letter in Hc. rewrite Hc.
  rewrite <- (append_snoc seen host c).
  destruct host as [|d host].
  - change (EmptyString +:+ String ":" rest) with (String ":" rest).
    rewrite getScheme_from_colon, append_empty_r. reflexivity.
  - apply IH; [exact Hhost|discriminate].
Qed.

Lemma strings_ToLower_nonempty (s : string) :
  s <> EmptyString -> strings_ToLower s <> EmptyString.
Proof. destruct s; [contradiction|discriminate]. Qed.

Lemma letters_not_star (host rest : string) :
  all_bytes is_letter host = true -> host <> EmptyString ->
  String.eqb (host +:+ rest) "*" = false.
Proof.
  destruct host as [|c host]; [contradiction|]. cbn [all_bytes]. intros Hall _.
  apply andb_prop in Hall as [Hc _]. simpl.
  destruct (Ascii.eqb_spec c "*") as [->|_]; [discriminate Hc|reflexivity].
Qed.

Lemma digits_not_rooted (port : string) :
  all_bytes is_digit port = true -> strings_HasPrefix port "/" = false.
Proof.
  destruct port as [|c port]; [reflexivity|]. cbn [all_bytes strings_HasPrefix].
  intros Hall. apply andb_prop in Hall as [Hc _].
  destruct (Ascii.eqb_spec c "/") as [->|_]; [discriminate Hc|reflexivity].
Qed.

Lemma byte_in_bounds (lo hi c : ascii) :
  byte_in lo hi c = true -> nat_of_ascii lo <= nat_of_ascii c <= nat_of_ascii hi.
Proof.
  unfold byte_in. intros H. apply andb_prop in H as [Hlo Hhi].
  apply Nat.leb_le in Hlo. apply Nat.leb_le in Hhi. lia.
Qed.

Lemma not_ctl (c : ascii) :
  32 <= nat_of_ascii c <= 126 ->
  (nat_of_ascii c <? 32)%nat || (nat_of_ascii c =? 127)%nat = false.
Proof.
  intros Hc. apply orb_false_intro; [apply Nat.ltb_ge|apply Nat.eqb_neq]; lia.
Qed.

Lemma letter_no_ctl (s : string) :
  all_bytes is_letter s = true -> stringContainsCTLByte s = false.
Proof.
  induction s as [|c s IH]; cbn [all_bytes stringContainsCTLByte]; [reflexivity|].
  intros Hall. apply andb_prop in Hall as [Hc Hs]. rewrite (IH Hs), orb_false_r.
  unfold is_letter, is_lower, is_upper in Hc.
  apply not_ctl.
  apply orb_prop in Hc as [Hc|Hc]; apply byte_in_bounds in Hc.
  - change (nat_of_ascii "a") with 97 in Hc. change (nat_of_ascii "z") with 122 in Hc. lia.
  - change (nat_of_ascii "A") with 65 in Hc. change (nat_of_ascii "Z") with 90 in Hc. lia.
Qed.

Lemma digit_no_ctl (s : string) :
  all_bytes is_digit s = true -> stringContainsCTLByte s = false.
Proof.
  induction s as [|c s IH]; cbn [all_bytes stringContainsCTLByte]; [reflexivity|].
  intros Hall. apply andb_prop in Hall as [Hc Hs]. rewrite (IH Hs), orb_false_r.
  unfold is_digit in Hc. apply byte_in_bounds in Hc.
  change (nat_of_ascii "0") with 48 in Hc. change (nat_of_ascii "9") with 57 in Hc.
  apply not_ctl. lia.
Qed.

(** X2: an address [name:port], with a name made of letters other than
    [unix] (in any case) and a port made of digits, is read by
    [url.Parse] as a URL whose scheme is the name; the parser refuses it
    as an unsupported scheme, whatever the authority parser does.  So
    [localhost:8080] is no TCP address for the program. *)
Theorem parseListenAddr_name_port (parseAuthority : string -> string + string)
    (name port : string) :
  name <> EmptyString ->
  all_bytes is_letter name = true ->
  all_bytes is_digit port = true ->
  strings_ToLower name <> "unix" ->
  parseListenAddr parseAuthority (name +:+ String ":" port)
  = Err (ErrUnsupportedScheme (strings_ToLower name)).
Proof.
  intros Hne Hname Hport Hunix.
  assert (Hsep : forall sep, is_letter sep = false -> is_digit sep = false ->
                   Ascii.eqb ":" sep = false ->
                   strings_Contains (name +:+ String ":" port) sep = false).
  { intros sep Hl Hd Hc. rewrite strings_Contains_app. cbn [strings_Contains].
    rewrite (all_bytes_absent _ _ _ Hl Hname), (all_bytes_absent _ _ _ Hd Hport), Hc.
    reflexivity. }
  assert (Hctl : stringContainsCTLByte (name +:+ String ":" port) = false).
  { rewrite stringContainsCTLByte_app.
    change (stringContainsCTLByte (String ":" port)) with (stringContainsCTLByte port).
    rewrite (letter_no_ctl _ Hname), (digit_no_ctl _ Hport). reflexivity. }
  assert (Hlow : String.eqb (strings_ToLower name) "" = false).
  { apply String.eqb_neq. apply strings_ToLower_nonempty. exact Hne. }
  assert (Hparse : url_parse parseAuthority (name +:+ String ":" port)
                   = inl (mkURL (strings_ToLower name) port "" "" "" "")).
  { unfold url_parse. rewrite Hctl, (letters_not_star _ _ Hname Hne).
    unfold getScheme. rewrite (getScheme_from_letters name true "" port _ Hname Hne).
    change (EmptyString +:+ name) with name.
    rewrite (strings_Cut_absent port "?")
      by (apply (all_bytes_absent is_digit); [reflexivity|exact Hport]).
    rewrite (digits_not_rooted _ Hport), Hlow. reflexivity. }
  unfold parseListenAddr, url_Parse.
  rewrite (strings_Cut_absent _ "#") by (apply Hsep; reflexivity).
  rewrite Hparse. cbn [String.eqb Scheme].
  rewrite Hlow.
  destruct (String.eqb_spec (strings_ToLower name) "unix") as [|_]; [contradiction|].
  reflexivity.
Qed.

Lemma parseListenAddr_name_port_witness :
  parseListenAddr plain_authority "localhost:8080" = Err (ErrUnsupportedScheme "localhost").
Proof.
  apply (parseListenAddr_name_port plain_authority "localhost" "8080").
  - discriminate.
  - reflexivity.
  - reflexivity.
  - discriminate.
Defined.

(** X3: the form [unix:///path].  When the path holds no control byte
    and none of [#], [?] and [%], and the authority parser accepts the
    empty authority with the empty host (as Go's does), the parser
    returns the transport [unix] and the absolute path [/path] byte for
    byte. *)
Theorem parseListenAddr_unix_absolute (parseAuthority : string -> string + string)
    (path : string) :
  parseAuthority EmptyString = inl EmptyString ->
  all_bytes is_plain path = true ->
  parseListenAddr parseAuthority ("unix:///" +:+ path) = Ok ("unix", String "/" path).
Proof.
  intros Hauth Hplain.
  assert (Hsep : forall sep, is_plain sep = false -> strings_Contains path sep = false).
  { intros sep Hs. exact (all_bytes_absent _ _ _ Hs Hplain). }
  assert (Hctl : stringContainsCTLByte ("unix:///" +:+ path) = false).
  { rewrite stringContainsCTLByte_app, (is_plain_no_ctl _ Hplain). reflexivity. }
  assert (Hstar : String.eqb ("unix:///" +:+ path) "*" = false) by reflexivity.
  assert (Hscheme : getScheme ("unix:///" +:+ path) = inl ("unix", "///" +:+ path))
    by reflexivity.
  assert (Hquery : strings_Cut ("///" +:+ path) "?" = ("///" +:+ path, EmptyString, false)).
  { apply strings_Cut_absent. rewrite strings_Contains_app, (Hsep "?"%char); reflexivity. }
  assert (Hauthority :
            strings_Cut (String.substring 2 (String.length ("///" +:+ path) - 2)
                           ("///" +:+ path)) "/"
            = (EmptyString, path, true)).
  { change (String.substring 2 (String.length ("///" +:+ path) - 2) ("///" +:+ path))
      with (String.substring 0 (String.length (String "/" path)) (String "/" path)).
    rewrite substring_all. reflexivity. }
  assert (Hpath : unescape (String "/" path) = inl (String "/" path)).
  { apply unescape_plain. cbn [strings_Contains]. rewrite (Hsep "%"%char); reflexivity. }
  assert (Hparse : url_parse parseAuthority ("unix:///" +:+ path)
                   = inl (mkURL "unix" "" "" (String "/" path) "" "")).
  { unfold url_parse. rewrite Hctl, Hstar, Hscheme.
    change (strings_ToLower "unix") with "unix".
    rewrite Hquery.
    change (strings_HasPrefix ("///" +:+ path) "/") with true.
    change (strings_HasPrefix ("///" +:+ path) "//") with true.
    cbn [negb andb orb String.eqb Ascii.eqb Bool.eqb].
    rewrite Hauthority, Hauth, Hpath. reflexivity. }
  unfold parseListenAddr, url_Parse.
  rewrite (strings_Cut_absent _ "#")
    by (rewrite strings_Contains_app, (Hsep "#"%char); reflexivity).
  rewrite Hparse. reflexivity.
Qed.

Lemma parseListenAddr_unix_absolute_witness :
  parseListenAddr plain_authority "unix:///run/foo.sock" = Ok ("unix", "/run/foo.sock").
Proof.
  apply (parseListenAddr_unix_absolute plain_authority "run/foo.sock"); reflexivity.
Defined.

(** * Further properties of configuration parsing *)

Lemma flag_listen_from (values : list string) : forall a,
  foldl (fun a v => fst (addrs_Set a v)) a values = a ++ values.
Proof.
  induction values as [|v values IH]; intros a; cbn.
  - rewrite app_nil_r. reflexivity.
  - rewrite IH, <- app_assoc. reflexivity.
Qed.

(** X4: [addrs.Set] never fails and keeps every value: after the calls
    that [flag.Parse] makes for the [-listen] flags, the addresses of a
    configuration that [parseConfig] returns are the flag values in the
    order of the command line, repeated and empty values included. *)
Theorem parseConfig_addresses (unsetenv_error : string -> option string)
    (values : list string) (e e' : Env) (cfg : config) :
  parseConfig unsetenv_error (flag_listen values) e = (Ok cfg, e') ->
  addresses cfg = values
  /\ (forall a v, snd (addrs_Set a v) = None /\ fst (addrs_Set a v) = a ++ [v]).
Proof.
  intros Hrun. split; [|intros a v; split; reflexivity].
  unfold flag_listen in Hrun. rewrite flag_listen_from in Hrun. cbn [app] in Hrun.
  parseConfig_cases Hrun unsetenv_error.
  all: try discriminate.
  all: injection Hrun as <- _; reflexivity.
Qed.

Lemma parseConfig_addresses_witness :
  addresses (mkConfig ["unix:///a"; ""; "unix:///a"] 0 0 []) = ["unix:///a"; ""; "unix:///a"]
  /\ (forall a v, snd (addrs_Set a v) = None /\ fst (addrs_Set a v) = a ++ [v]).
Proof.
  apply (parseConfig_addresses unsetenv_ok ["unix:///a"; ""; "unix:///a"] (env_of [])
           (snd (parseConfig unsetenv_ok (flag_listen ["unix:///a"; ""; "unix:///a"]) (env_of [])))).
  vm_compute. reflexivity.
Defined.

(** X5: [parseConfig] touches no variable but the three activation
    variables, whether it succeeds or fails and whether [os.Unsetenv]
    fails or not; and it only adds to the history of the environment. *)
Theorem parseConfig_frame (unsetenv_error : string -> option string)
    (flags : list string) (e e' : Env) (r : result config) (key : string) :
  parseConfig unsetenv_error flags e = (r, e') ->
  key ∉ activation_vars ->
  vars e' !! key = vars e !! key /\ ops e `prefix_of` ops e'.
Proof.
  intros Hrun Hkey.
  assert (Hpid : key <> "LISTEN_PID") by (intros ->; apply Hkey; set_solver).
  assert (Hfds : key <> "LISTEN_FDS") by (intros ->; apply Hkey; set_solver).
  assert (Hnames : key <> "LISTEN_FDNAMES") by (intros ->; apply Hkey; set_solver).
  parseConfig_cases Hrun unsetenv_error.
  all: injection Hrun as <- <-; cbn [vars ops].
  all: split; [rewrite ?lookup_delete_ne by congruence; reflexivity|].
  all: repeat apply prefix_app_r; reflexivity.
Qed.

Lemma parseConfig_frame_witness :
  let e := env_of [("LISTEN_PID", "42"); ("LISTEN_FDS", "x"); ("HOME", "/root")] in
  let e' := snd (parseConfig unsetenv_ok [] e) in
  vars e' !! "HOME" = vars e !! "HOME" /\ ops e `prefix_of` ops e'.
Proof.
  intros e e'.
  apply (parseConfig_frame unsetenv_ok [] e e' (fst (parseConfig unsetenv_ok [] e)) "HOME").
  - vm_compute. reflexivity.
  - unfold activation_vars. intros Hin.
    repeat (apply elem_of_cons in Hin as [Hin|Hin]; [discriminate Hin|]).
    apply elem_of_nil in Hin. exact Hin.
Defined.

(** X6: when none of the three activation variables has a value other
    than the empty string, [parseConfig] succeeds with the flag values
    and zero for the process id, zero for the descriptor count and no
    names; it reads each variable once, removes nothing, and never calls
    [os.Unsetenv]. *)
Theorem parseConfig_no_activation (unsetenv_error : string -> option string)
    (flags : list string) (e : Env) :
  (forall key, key ∈ activation_vars -> default EmptyString (vars e !! key) = EmptyString) ->
  parseConfig unsetenv_error flags e
  = (Ok (mkConfig flags 0 0 []),
     mkEnv (vars e)
           (ops e ++ [EnvGet "LISTEN_PID"; EnvGet "LISTEN_FDS"; EnvGet "LISTEN_FDNAMES"])).
Proof.
  intros Hnone.
  assert (Hpid := Hnone "LISTEN_PID" ltac:(set_solver)).
  assert (Hfds := Hnone "LISTEN_FDS" ltac:(set_solver)).
  assert (Hnames := Hnone "LISTEN_FDNAMES" ltac:(set_solver)).
  unfold parseConfig, os_Getenv. cbn [vars ops].
  rewrite Hpid. cbn [String.eqb negb vars ops].
  rewrite Hfds. cbn [String.eqb negb vars ops].
  rewrite Hnames. cbn [String.eqb negb vars ops].
  rewrite <- !app_assoc. reflexivity.
Qed.

Lemma parseConfig_no_activation_witness :
  let e := env_of [("LISTEN_FDS", ""); ("HOME", "/root")] in
  parseConfig unsetenv_ok [":8080"] e
  = (Ok (mkConfig [":8080"] 0 0 []),
     mkEnv (vars e)
           (ops e ++ [EnvGet "LISTEN_PID"; EnvGet "LISTEN_FDS"; EnvGet "LISTEN_FDNAMES"])).
Proof.
  intros e. apply (parseConfig_no_activation unsetenv_ok [":8080"] e).
  intros key Hkey. unfold activation_vars in Hkey.
  repeat (apply elem_of_cons in Hkey as [->|Hkey]; [vm_compute; reflexivity|]).
  apply elem_of_nil in Hkey. contradiction.
Defined.

Lemma parseConfig_int_range_witness :
  is_int (listenPid (mkConfig [] 42 (-1) [])) /\ is_int (listenFds (mkConfig [] 42 (-1) [])).
Proof.
  apply (parseConfig_int_range unsetenv_ok []
           (env_of [("LISTEN_PID", "42"); ("LISTEN_FDS", "-1")])
           (snd (parseConfig unsetenv_ok []
                   (env_of [("LISTEN_PID", "42"); ("LISTEN_FDS", "-1")])))).
  vm_compute. reflexivity.
Defined.

Lemma strings_Split_nonempty (s : string) (sep : ascii) : strings_Split s sep <> [].
Proof.
  destruct s as [|c s]; cbn; [discriminate|].
  destruct (Ascii.eqb c sep); [discriminate|].
  destruct (strings_Split s sep); discriminate.
Qed.

Lemma strings_Join_Split (s : string) (sep : ascii) :
  strings_Join (strings_Split s sep) sep = s.
Proof.
  induction s as [|c s IH]; cbn [strings_Split]; [reflexivity|].
  destruct (Ascii.eqb_spec c sep) as [->|Hc].
  - pose proof (strings_Split_nonempty s sep) as Hne.
    destruct (strings_Split s sep) as [|piece pieces]; [contradiction|].
    cbn [strings_Join]. cbn [strings_Join] in IH. rewrite IH. reflexivity.
  - pose proof (strings_Split_nonempty s sep) as Hne.
    destruct (strings_Split s sep) as [|piece pieces]; [contradiction|].
    destruct pieces as [|piece' pieces].
    + cbn [strings_Join] in *. rewrite IH. reflexivity.
    + cbn [strings_Join] in *. rewrite <- IH. reflexivity.
Qed.

Lemma strings_Split_no_sep (s : string) (sep : ascii) :
  Forall (fun piece => strings_Contains piece sep = false) (strings_Split s sep).
Proof.
  induction s as [|c s IH]; cbn [strings_Split]; [repeat constructor|].
  destruct (Ascii.eqb c sep) eqn:Hc.
  - constructor; [reflexivity|exact IH].
  - destruct (strings_Split s sep) as [|piece pieces]; [repeat constructor; cbn; rewrite Hc; reflexivity|].
    apply Forall_cons in IH as [Hpiece Hpieces].
    constructor; [|exact Hpieces]. cbn. rewrite Hc, Hpiece. reflexivity.
Qed.

(** X8: the names of a configuration that [parseConfig] returns.  When
    [LISTEN_FDNAMES] is not set or is empty there are none.  Otherwise
    they are the pieces of its value between the colons: none of them
    holds a colon, and joined again with colons they give the value
    back. *)
Theorem parseConfig_fdnames (unsetenv_error : string -> option string)
    (flags : list string) (e e' : Env) (cfg : config) :
  parseConfig unsetenv_error flags e = (Ok cfg, e') ->
  (default EmptyString (vars e !! "LISTEN_FDNAMES") = EmptyString -> listenFdnames cfg = [])
  /\ (default EmptyString (vars e !! "LISTEN_FDNAMES") <> EmptyString ->
      strings_Join (listenFdnames cfg) ":" = default EmptyString (vars e !! "LISTEN_FDNAMES")
      /\ Forall (fun name => strings_Contains name ":" = false) (listenFdnames cfg)
      /\ listenFdnames cfg <> []).
Proof.
  intros Hrun.
  parseConfig_cases Hrun unsetenv_error.
  all: try discriminate.
  all: injection Hrun as <- _; cbn [listenFdnames].
  all: split; intros Hnames; try contradiction; try reflexivity.
  all: split; [apply strings_Join_Split|].
  all: split; [apply strings_Split_no_sep|apply strings_Split_nonempty].
Qed.

Lemma parseConfig_fdnames_witness :
  let e := env_of [("LISTEN_FDNAMES", "web::admin")] in
  let cfg := mkConfig [] 0 0 ["web"; ""; "admin"] in
  (default EmptyString (vars e !! "LISTEN_FDNAMES") = EmptyString -> listenFdnames cfg = [])
  /\ (default EmptyString (vars e !! "LISTEN_FDNAMES") <> EmptyString ->
      strings_Join (listenFdnames cfg) ":" = default EmptyString (vars e !! "LISTEN_FDNAMES")
      /\ Forall (fun name => strings_Contains name ":" = false) (listenFdnames cfg)
      /\ listenFdnames cfg <> []).
Proof.
  intros e cfg.
  apply (parseConfig_fdnames unsetenv_ok [] e (snd (parseConfig unsetenv_ok [] e)) cfg).
  vm_compute. reflexivity.
Defined.

(** * Further properties of acquisition *)

Section ImportFacts.

Variable os : OS.

(** The calls of the import loop: none is [net.Listen]; the files that
    are closed are the files of the wrapped descriptors; and a loop that
    ends without error has marked the descriptor of every slot. *)
Lemma import_loop_events c n : forall i ls w ls' err w',
  import_loop os c n i ls w = (ls', err, w') ->
  exists evs,
    syscalls w' = syscalls w ++ evs
    /\ Forall (fun ev => is_listen ev = false) evs
    /\ omap file_closed evs = omap wrapped_fd evs
    /\ (err = None -> omap cloexec_fd evs = map slot_fd (seqZ i (Z.of_nat n))).
Proof.
  induction n as [|n IH]; intros i ls w ls' err w' Hloop.
  - cbn in Hloop. injection Hloop as <- <- <-. exists [].
    rewrite app_nil_r, seqZ_nil by lia. repeat split; constructor.
  - rewrite seqZ_succ. cbn [import_loop] in Hloop. unfold os_NewFile in Hloop.
    destruct (slot_fd i <? 0)%Z; cbn in Hloop.
    + apply IH in Hloop as (evs & Hs & Hl & Hc & He).
      exists (SysCloseOnExec (slot_fd i) :: evs). cbn in Hs. rewrite <- app_assoc in Hs.
      repeat split; [exact Hs|constructor; auto|exact Hc|].
      intros Hnone. cbn. rewrite (He Hnone). reflexivity.
    + destruct (FileListener_ok os _ (slot_fd i)); cbn in Hloop.
      * destruct (FileClose_error os _ _) as [ferr|].
        -- injection Hloop as <- <- <-.
           eexists [SysCloseOnExec (slot_fd i); SysFileListener (slot_fd i) (Some _);
                    SysFileClose (slot_fd i)].
           cbn. rewrite <- !app_assoc. repeat split; [repeat constructor|discriminate].
        -- apply IH in Hloop as (evs & Hs & Hl & Hc & He).
           eexists (SysCloseOnExec (slot_fd i) :: SysFileListener (slot_fd i) (Some _)
                      :: SysFileClose (slot_fd i) :: evs).
           cbn in Hs. rewrite <- !app_assoc in Hs.
           repeat split; [exact Hs|repeat constructor; auto|cbn; rewrite Hc; reflexivity|].
           intros Hnone. cbn. rewrite (He Hnone). reflexivity.
      * apply IH in Hloop as (evs & Hs & Hl & Hc & He).
        exists (SysCloseOnExec (slot_fd i) :: SysFileListener (slot_fd i) None :: evs).
        cbn in Hs. rewrite <- !app_assoc in Hs.
        repeat split; [exact Hs|repeat constructor; auto|exact Hc|].
        intros Hnone. cbn. rewrite (He Hnone). reflexivity.
Qed.

(** An error of the import loop is the failure to close the file of one
    of its slots. *)
Lemma import_loop_error c n : forall i ls w ls' e w',
  import_loop os c n i ls w = (ls', Some e, w') ->
  exists j cause, (i <= j < i + Z.of_nat n)%Z /\ e = ErrCloseFile (slot_name c j) cause.
Proof.
  induction n as [|n IH]; intros i ls w ls' e w' Hloop; [discriminate|].
  cbn [import_loop] in Hloop. unfold os_NewFile in Hloop.
  assert (Hnext : forall ls0 w0,
             import_loop os c n (i + 1) ls0 w0 = (ls', Some e, w') ->
             exists j cause, (i <= j < i + Z.of_nat (S n))%Z
                             /\ e = ErrCloseFile (slot_name c j) cause).
  { intros ls0 w0 H. apply IH in H as (j & cause & Hj & He).
    exists j, cause. split; [lia|exact He]. }
  destruct (slot_fd i <? 0)%Z; cbn in Hloop; [eapply Hnext; eassumption|].
  destruct (FileListener_ok os _ (slot_fd i)); cbn in Hloop; [|eapply Hnext; eassumption].
  destruct (FileClose_error os _ _) as [ferr|]; [|eapply Hnext; eassumption].
  injection Hloop as _ <- _. exists i, ferr. split; [lia|reflexivity].
Qed.

(** X9: when activation is honoured and the import ends without error,
    the descriptor of every slot, from the first to the last, has been
    marked close-on-exec, in this order, also for the slots that are
    then skipped; [f.Close()] has been called on the files of the
    wrapped descriptors, in their order, and on no other file: the file
    of a slot that is skipped is never closed.  The import never calls
    [net.Listen]. *)
Theorem import_phase_calls (c : config) (ls ls' : list Listener) (w w' : World) :
  listenPid c <> 0%Z ->
  listenPid c = os_Getpid os ->
  import_phase os c ls w = (ls', None, w') ->
  exists evs,
    syscalls w' = syscalls w ++ evs
    /\ omap cloexec_fd evs = map slot_fd (seqZ 0 (listenFds c))
    /\ omap file_closed evs = omap wrapped_fd evs
    /\ Forall (fun ev => is_listen ev = false) evs.
Proof.
  intros Hpid Hown. unfold import_phase.
  destruct (Z.eqb_spec (listenPid c) 0) as [|_]; [contradiction|].
  rewrite Hown, Z.eqb_refl. cbn [negb andb]. intros Hloop.
  apply import_loop_events in Hloop as (evs & Hs & Hl & Hc & He).
  exists evs. rewrite <- seqZ_to_nat. auto.
Qed.

(** X10: a descriptor that cannot be wrapped is skipped and is no error.
    When none of the descriptors can be wrapped, the import returns the
    listeners it was given and no error, whatever the configuration is;
    no listener is created or opened. *)
Theorem import_phase_nothing_wrapped (c : config) (ls : list Listener) (w : World) :
  (forall w fd, FileListener_ok os w fd = false) ->
  fst (import_phase os c ls w) = (ls, None)
  /\ next_listener (snd (import_phase os c ls w)) = next_listener w
  /\ open_listeners (snd (import_phase os c ls w)) = open_listeners w
  /\ omap file_closed (syscalls (snd (import_phase os c ls w))) = omap file_closed (syscalls w).
Proof.
  intros Hnone.
  assert (Hloop : forall n i w,
             fst (import_loop os c n i ls w) = (ls, None)
             /\ next_listener (snd (import_loop os c n i ls w)) = next_listener w
             /\ open_listeners (snd (import_loop os c n i ls w)) = open_listeners w
             /\ omap file_closed (syscalls (snd (import_loop os c n i ls w)))
                = omap file_closed (syscalls w)).
  { induction n as [|n IH]; intros i w0; [repeat split|].
    cbn [import_loop]. unfold os_NewFile.
    destruct (slot_fd i <? 0)%Z; cbn [net_FileListener].
    - destruct (IH (i + 1)%Z (syscall_CloseOnExec (slot_fd i) w0)) as (H1 & H2 & H3 & H4).
      rewrite H1, H2, H3, H4. cbn. rewrite omap_app. cbn. rewrite app_nil_r. auto.
    - cbn [f_fd]. rewrite Hnone.
      destruct (IH (i + 1)%Z (log_event (SysFileListener (slot_fd i) None)
                                (syscall_CloseOnExec (slot_fd i) w0))) as (H1 & H2 & H3 & H4).
      rewrite H1, H2, H3, H4. cbn. rewrite !omap_app. cbn. rewrite !app_nil_r. auto. }
  unfold import_phase.
  destruct (negb (listenPid c =? 0)%Z && (listenPid c =? os_Getpid os)%Z);
    [apply Hloop|repeat split].
Qed.

End ImportFacts.

Lemma import_phase_calls_witness :
  let os := mkOS 42 (fun _ fd => (fd =? 4)%Z) (fun _ _ => None) (fun _ _ _ => None) in
  let c := mkConfig [] 42 3 [] in
  let w' := snd (import_phase os c [] init_world) in
  import_phase os c [] init_world = ([mkListener 0 (Imported 4 "LISTEN_FD_4")], None, w')
  /\ exists evs,
       syscalls w' = syscalls init_world ++ evs
       /\ omap cloexec_fd evs = map slot_fd (seqZ 0 (listenFds c))
       /\ omap file_closed evs = omap wrapped_fd evs
       /\ Forall (fun ev => is_listen ev = false) evs.
Proof.
  intros os c w'.
  assert (Hrun : import_phase os c [] init_world
                 = ([mkListener 0 (Imported 4 "LISTEN_FD_4")], None, w')).
  { vm_compute. f_equal. }
  split; [exact Hrun|].
  assert (Hpid : listenPid c <> 0%Z) by discriminate.
  exact (import_phase_calls os c [] _ init_world w' Hpid eq_refl Hrun).
Defined.

Lemma import_phase_nothing_wrapped_witness :
  let os := mkOS 42 (fun _ _ => false) (fun _ _ => None) (fun _ _ _ => None) in
  let c := mkConfig [] 42 2 ["a"; "b"] in
  fst (import_phase os c [] init_world) = ([], None)
  /\ next_listener (snd (import_phase os c [] init_world)) = next_listener init_world
  /\ open_listeners (snd (import_phase os c [] init_world)) = open_listeners init_world
  /\ omap file_closed (syscalls (snd (import_phase os c [] init_world)))
     = omap file_closed (syscalls init_world).
Proof.
  intros os c. apply (import_phase_nothing_wrapped os c [] init_world).
  intros w fd. reflexivity.
Defined.

Section ListenersFacts.

Variable os : OS.
Variable parseAuthority : string -> string + string.

(** X11: when [listeners] succeeds, [Close] has been called on no
    listener, and the list that is returned is exactly the listeners
    that the call has created, each of them once, in the order of
    creation. *)
Theorem listeners_success_created (c : config) (w w' : World) (ls : list Listener) :
  listeners os parseAuthority c w = (Ok ls, w') ->
  NoDup (map l_id ls)
  /\ exists evs,
       syscalls w' = syscalls w ++ evs
       /\ Forall (fun ev => is_close ev = false) evs
       /\ created_ids evs = map l_id ls.
Proof.
  unfold listeners.
  destruct (listeners_body os parseAuthority c w) as [[ls0 [err|]] w1] eqn:Hbody;
    intros Hret; [discriminate|].
  injection Hret as -> <-. cbn [deferred].
  apply listeners_body_acquired in Hbody as [evs [Hs Hi Hf Hn Ho Hc]].
  cbn [map app] in Hi.
  split.
  - rewrite Hi, Hf. apply NoDup_seq.
  - exists evs. rewrite Hi. auto.
Qed.

(** X12: the number of listeners of a successful acquisition: one for
    each configured address, and at most one more for each slot of the
    descriptor count; exactly one for each address when activation is
    not honoured. *)
Theorem listeners_count (c : config) (w w' : World) (ls : list Listener) :
  listeners os parseAuthority c w = (Ok ls, w') ->
  length (addresses c) <= length ls <= Z.to_nat (listenFds c) + length (addresses c)
  /\ (listenPid c = 0%Z \/ listenPid c <> os_Getpid os -> length ls = length (addresses c)).
Proof.
  unfold listeners.
  destruct (listeners_body os parseAuthority c w) as [[ls0 [err|]] w1] eqn:Hbody;
    intros Hret; [discriminate|].
  injection Hret as -> _. unfold listeners_body in Hbody.
  destruct (import_phase os c [] w) as [[imp [e1|]] w0] eqn:Himport; [discriminate|].
  apply bind_phase_bound in Hbody as (bound & -> & Hbound).
  apply Forall2_length in Hbound.
  rewrite length_app, Hbound.
  unfold import_phase in Himport.
  destruct (negb (listenPid c =? 0)%Z && (listenPid c =? os_Getpid os)%Z) eqn:Hact.
  - apply import_loop_origins in Himport as (slots & imp0 & -> & Hsub & _ & Horig); [|lia].
    apply sublist_length in Hsub. rewrite length_seqZ, Nat2Z.id in Hsub.
    apply (f_equal (@length origin)) in Horig. rewrite !length_map in Horig.
    cbn [app]. split; [lia|].
    intros [Hzero|Hother]; exfalso.
    + rewrite Hzero in Hact. discriminate.
    + apply andb_prop in Hact as [_ Hown]. apply Z.eqb_eq in Hown. contradiction.
  - injection Himport as <- _. cbn. split; [lia|reflexivity].
Qed.

(** An error of the loop over the addresses is about the first address
    that the parser refuses or that cannot be bound. *)
Lemma bind_phase_error addrs : forall ls w ls' e w',
  bind_phase os parseAuthority addrs ls w = (ls', Some e, w') ->
  exists pre addr post,
    addrs = pre ++ addr :: post
    /\ Forall (fun a => exists r, parseListenAddr parseAuthority a = Ok r) pre
    /\ ((exists cause, e = ErrInvalidListenAddress addr cause
                       /\ parseListenAddr parseAuthority addr = Err cause)
        \/ (exists network target cause,
              e = ErrListen addr network cause
              /\ parseListenAddr parseAuthority addr = Ok (network, target))).
Proof.
  induction addrs as [|addr addrs IH]; intros ls w ls' e w' Hbind; cbn in Hbind;
    [discriminate|].
  destruct (parseListenAddr parseAuthority addr) as [[network target]|parseErr] eqn:Hparse.
  - unfold net_Listen in Hbind.
    destruct (Listen_error os w network target) as [lerr|].
    + injection Hbind as _ <- _. exists [], addr, addrs.
      split; [reflexivity|]. split; [constructor|].
      right. exists network, target, lerr. split; [reflexivity|exact Hparse].
    + apply IH in Hbind as (pre & bad & post & -> & Hpre & Hbad).
      exists (addr :: pre), bad, post.
      split; [reflexivity|]. split; [|exact Hbad].
      constructor; [eexists; exact Hparse|exact Hpre].
  - injection Hbind as _ <- _. exists [], addr, addrs.
    split; [reflexivity|]. split; [constructor|].
    left. exists parseErr. split; [reflexivity|exact Hparse].
Qed.

(** X13: what the error of [listeners] tells.  It is the failure to
    close the file of a slot of the import, named after that slot, and
    then no address has been parsed or bound ([net.Listen] has not been
    called); or it is about the first configured address that the
    parser refuses or that cannot be bound, every address before it
    having been accepted by the parser, and it carries that address and
    the cause. *)
Theorem listeners_error_source (c : config) (w w' : World) (e : error) :
  listeners os parseAuthority c w = (Err e, w') ->
  (exists j cause,
     (0 <= j < listenFds c)%Z
     /\ e = ErrCloseFile (slot_name c j) cause
     /\ exists evs, syscalls w' = syscalls w ++ evs
                    /\ Forall (fun ev => is_listen ev = false) evs)
  \/ (exists pre addr post,
        addresses c = pre ++ addr :: post
        /\ Forall (fun a => exists r, parseListenAddr parseAuthority a = Ok r) pre
        /\ ((exists cause, e = ErrInvalidListenAddress addr cause
                           /\ parseListenAddr parseAuthority addr = Err cause)
            \/ (exists network target cause,
                  e = ErrListen addr network cause
                  /\ parseListenAddr parseAuthority addr = Ok (network, target)))).
Proof.
  unfold listeners.
  destruct (listeners_body os parseAuthority c w) as [[ls [err|]] w1] eqn:Hbody;
    intros Hret; [|discriminate].
  injection Hret as -> <-. unfold listeners_body in Hbody.
  destruct (import_phase os c [] w) as [[imp [e1|]] w0] eqn:Himport.
  - injection Hbody as <- <- <-. left.
    unfold import_phase in Himport.
    destruct (negb (listenPid c =? 0)%Z && (listenPid c =? os_Getpid os)%Z); [|discriminate].
    pose proof Himport as Hevents.
    apply import_loop_error in Himport as (j & cause & Hj & ->).
    apply import_loop_events in Hevents as (evs & Hs & Hl & _).
    exists j, cause. split; [lia|]. split; [reflexivity|].
    destruct (close_all_spec imp w0) as (_ & _ & Hclose). cbn [deferred].
    exists (evs ++ map SysListenerClose (map l_id imp)).
    split; [rewrite Hclose, Hs, app_assoc; reflexivity|].
    apply Forall_app. split; [exact Hl|].
    apply Forall_forall. intros ev Hev.
    apply list_elem_of_In, in_map_iff in Hev as (id & <- & _). reflexivity.
  - right. eapply bind_phase_error. exact Hbody.
Qed.

End ListenersFacts.

Lemma listeners_success_created_witness :
  let c := mkConfig ["unix:///run/x.sock"] 42 1 ["a"] in
  let ls := [mkListener 0 (Imported 3 "a"); mkListener 1 (Bound "unix" "/run/x.sock")] in
  let w' := snd (listeners (friendly_os 42) plain_authority c init_world) in
  NoDup (map l_id ls)
  /\ exists evs,
       syscalls w' = syscalls init_world ++ evs
       /\ Forall (fun ev => is_close ev = false) evs
       /\ created_ids evs = map l_id ls.
Proof.
  intros c ls w'.
  apply (listeners_success_created (friendly_os 42) plain_authority c init_world w' ls).
  vm_compute. f_equal.
Defined.

Lemma listeners_count_witness :
  let c := mkConfig ["unix:///run/x.sock"] 42 3 [] in
  let os := mkOS 42 (fun _ fd => (fd =? 4)%Z) (fun _ _ => None) (fun _ _ _ => None) in
  let ls := [mkListener 0 (Imported 4 "LISTEN_FD_4");
             mkListener 1 (Bound "unix" "/run/x.sock")] in
  length (addresses c) <= length ls <= Z.to_nat (listenFds c) + length (addresses c)
  /\ (listenPid c = 0%Z \/ listenPid c <> os_Getpid os -> length ls = length (addresses c)).
Proof.
  intros c os ls.
  apply (listeners_count os plain_authority c init_world
           (snd (listeners os plain_authority c init_world)) ls).
  vm_compute. f_equal.
Defined.

Lemma listeners_error_source_witness :
  let c := mkConfig ["unix:///run/a.sock"; "localhost:8080"; "unix:///run/c.sock"] 0 0 [] in
  let e := ErrInvalidListenAddress "localhost:8080" (ErrUnsupportedScheme "localhost") in
  (exists j cause,
     (0 <= j < listenFds c)%Z
     /\ e = ErrCloseFile (slot_name c j) cause
     /\ exists evs, syscalls (snd (listeners (friendly_os 42) plain_authority c init_world))
                    = syscalls init_world ++ evs
                    /\ Forall (fun ev => is_listen ev = false) evs)
  \/ (exists pre addr post,
        addresses c = pre ++ addr :: post
        /\ Forall (fun a => exists r, parseListenAddr plain_authority a = Ok r) pre
        /\ ((exists cause, e = ErrInvalidListenAddress addr cause
                           /\ parseListenAddr plain_authority addr = Err cause)
            \/ (exists network target cause,
                  e = ErrListen addr network cause
                  /\ parseListenAddr plain_authority addr = Ok (network, target)))).
Proof.
  intros c e.
  apply (listeners_error_source (friendly_os 42) plain_authority c init_world).
  vm_compute. f_equal.
Defined.

(** * Further properties of the start of [main] *)




(** * The synthesized names *)

Lemma strconv_Itoa_inj (z1 z2 : Z) : strconv_Itoa z1 = strconv_Itoa z2 -> z1 = z2.
Proof.
  unfold strconv_Itoa. intros Heq.
  assert (Hparse : forall z, NilZero.int_of_string (NilZero.string_of_int (Z.to_int z))
                             = Some (Z.to_int z)).
  { intros z. apply NilZero.isi; destruct z as [|p|p]; cbn; try discriminate;
      intros H; injection H as H; exact (DecimalPos.Unsigned.to_uint_nonnil p H). }
  pose proof (Hparse z1) as H1. rewrite Heq, Hparse in H1. injection H1 as H1.
  rewrite <- (DecimalZ.of_to z1), <- (DecimalZ.of_to z2), H1. reflexivity.
Qed.

(** X15: two different slots that have no name of their own (no entry
    in the names, or an empty one) get different synthesized names, as
    long as their descriptor numbers [3 + i] are in the range of
    [int]. *)
Theorem slot_name_distinct (c : config) (i j : Z) :
  (0 <= i)%Z -> (i < j)%Z -> (j <= int_max - listenFdsStart)%Z ->
  nth (Z.to_nat i) (listenFdnames c) EmptyString = EmptyString ->
  nth (Z.to_nat j) (listenFdnames c) EmptyString = EmptyString ->
  slot_name c i <> slot_name c j
  /\ slot_name c i = "LISTEN_FD_" +:+ strconv_Itoa (listenFdsStart + i).
Proof.
  intros Hi Hij Hj Hni Hnj.
  assert (Hfd : forall k, (0 <= k <= int_max - listenFdsStart)%Z ->
                  slot_fd k = (listenFdsStart + k)%Z).
  { intros k Hk. unfold slot_fd. apply wrap_int_small.
    unfold int_min, int_max, listenFdsStart in *. lia. }
  assert (Hname : forall k, nth (Z.to_nat k) (listenFdnames c) EmptyString = EmptyString ->
                    slot_name c k = "LISTEN_FD_" +:+ strconv_Itoa (slot_fd k)).
  { intros k Hk. unfold slot_name. rewrite Hk. cbn [String.length].
    rewrite andb_false_r. reflexivity. }
  rewrite (Hname i Hni), (Hname j Hnj), (Hfd i), (Hfd j) by lia.
  split; [|reflexivity].
  intros Heq. apply (inj (String.append "LISTEN_FD_")) in Heq.
  apply strconv_Itoa_inj in Heq. lia.
Qed.

Lemma slot_name_distinct_witness :
  slot_name (mkConfig [] 42 12 ["a"; ""]) 1 <> slot_name (mkConfig [] 42 12 ["a"; ""]) 11
  /\ slot_name (mkConfig [] 42 12 ["a"; ""]) 1 = "LISTEN_FD_" +:+ strconv_Itoa (listenFdsStart + 1).
Proof.
  apply (slot_name_distinct (mkConfig [] 42 12 ["a"; ""]) 1 11).
  - lia.
  - lia.
  - discriminate.
  - reflexivity.
  - reflexivity.
Defined.

Lemma parseListenAddr_tcp_no_port_witness :
  "8080" = "8080"
  /\ (strings_HasPrefix "8080" "/" = false ->
      strings_Contains (first_segment "8080") ":" = false).
Proof.
  apply (parseListenAddr_tcp_no_port plain_authority "8080" "8080").
  reflexivity.
Defined.
